(** * Market-data multiplexer of the Tinkoff gRPC-web trader

    A shallow embedding of [src/shared/traders/tinkoff-grpc-web.js]:
    the quotation conversions, the ref-counted subscription registry, the
    construction of the streaming request, the routing of incoming messages
    into widget fields, the trade-history fetcher and the reconnect logic
    of the stream controller. *)

From Stdlib Require Import ZArith QArith Qabs Qround Qpower Lqa Lia.
From stdpp Require Import gmap strings list pretty.

Local Open Scope Z_scope.

(** ** JavaScript [Map] with string keys

    A [Map] iterates in insertion order; [set] on a present key keeps the
    entry where it is, [set] on a new key appends it. *)
Module JsMap.

Section Ops.
Context {V : Type}.

Fixpoint get (k : string) (m : list (string * V)) : option V :=
  match m with
  | [] => None
  | (k', v) :: m' => if decide (k = k') then Some v else get k m'
  end.

Fixpoint set (k : string) (v : V) (m : list (string * V)) : list (string * V) :=
  match m with
  | [] => [(k, v)]
  | (k', v') :: m' =>
      if decide (k = k') then (k, v) :: m' else (k', v') :: set k v m'
  end.

Fixpoint delete (k : string) (m : list (string * V)) : list (string * V) :=
  match m with
  | [] => []
  | (k', v') :: m' =>
      if decide (k = k') then delete k m' else (k', v') :: delete k m'
  end.

Definition values (m : list (string * V)) : list V := map snd m.

Definition size (m : list (string * V)) : nat := length m.

End Ops.

End JsMap.

(** ** Binary64 numbers

    A finite JavaScript number is the rational it denotes; an arithmetic
    operation is the exact operation followed by rounding to the nearest
    representable value, ties to even, subnormals included. Infinities and
    NaN are not values of this model: a result is the one of JavaScript
    wherever the operation does not overflow. *)
Module Binary64.
Local Open Scope Q_scope.

(** [2 ^ e], for any integer [e]. *)
Definition pow2 (e : Z) : Q := Qpower 2 e.

(** The integer part of the binary logarithm of [|q|], for [q] other than
    zero: the difference of the logarithms of numerator and denominator,
    corrected by one when it overshoots. *)
Definition ilog2 (q : Q) : Z :=
  let k := (Z.log2 (Z.abs (Qnum q)) - Z.log2 (Zpos (Qden q)))%Z in
  if Qle_bool (pow2 k) (Qabs q) then k else (k - 1)%Z.

(** The exponent of the smallest subnormal. *)
Definition emin : Z := -1074.

(** The exponent of the last place of the format at [q]: 53 significant
    bits, and never below the subnormal grid. *)
Definition cexp (q : Q) : Z := Z.max (ilog2 q - 52) emin.

(** The nearest integer, a tie going to the even one. *)
Definition rne (t : Q) : Z :=
  let f := Qfloor t in
  match Qcompare (t - inject_Z f) (1 # 2) with
  | Lt => f
  | Gt => (f + 1)%Z
  | Eq => if Z.even f then f else (f + 1)%Z
  end.

(** Rounding to binary64: the nearest multiple of the last place. *)
Definition rnd (q : Q) : Q :=
  if Qeq_bool q 0 then 0
  else inject_Z (rne (q / pow2 (cexp q))) * pow2 (cexp q).

(** The values binary64 represents: a significand below [2 ^ 53] at an
    exponent of at least [emin]. *)
Definition F (y : Q) : Prop :=
  exists m e : Z, y == inject_Z m * pow2 e /\ (Z.abs m < 2 ^ 53)%Z /\ (emin <= e)%Z.

(** The arithmetic operators of JavaScript on numbers. *)
Definition fadd (a b : Q) : Q := rnd (a + b).
Definition fsub (a b : Q) : Q := rnd (a - b).
Definition fmul (a b : Q) : Q := rnd (a * b).
Definition fdiv (a b : Q) : Q := rnd (a / b).

(** [Math.abs] and [Math.floor] are exact; [Math.round] is the nearest
    integer with a tie going up. *)
Definition Math_abs (x : Q) : Q := Qabs x.
Definition Math_floor (x : Q) : Q := inject_Z (Qfloor x).
Definition Math_round (x : Q) : Q := inject_Z (Qfloor (x + (1 # 2))).

End Binary64.

(** ** Data model *)

(** An instrument as the catalogue hands it over: the domain key, the display
    symbol and the identifier the upstream service uses. *)
Record Instrument := {
  _id : string;
  symbol : string;
  tinkoffFigi : string
}.

(** JavaScript numbers that carry prices are binary64 values; a finite one is
    the rational it denotes. *)
Definition number := Q.

(** The wire quotation: whole units and billionths. *)
Record Quotation := {
  units : number;
  nano : number
}.

(** One level of a book on the wire. *)
Record Order := {
  price : option Quotation;
  quantity : Z
}.

(** A book message (stream item or unary response). The arrays are read
    through [?.], so an absent array is allowed. *)
Record Orderbook := {
  ob_figi : string;
  ob_bids : option (list Order);
  ob_asks : option (list Order)
}.

(** A trade on the wire; [tr_direction] is the number of the
    [TradeDirection] enumeration and [tr_time] the [Date]'s time value in
    epoch milliseconds. *)
Record Trade := {
  tr_figi : string;
  tr_direction : Z;
  tr_price : option Quotation;
  tr_quantity : Z;
  tr_time : Z
}.

(** [TRADER_DATUM] of [const.js]: the two kinds this trader serves, and any
    other. *)
Inductive TraderDatum :=
| ORDERBOOK
| MARKET_PRINT
| OTHER_DATUM (name : string).

(** What the router writes for a book: price and volume per level. *)
Record Level := {
  lv_price : option number;
  lv_volume : Z
}.

Record BookView := {
  bids : list Level;
  asks : list Level
}.

(** What the router writes for a trade print. *)
Record PrintView := {
  orderId : string;
  side : string;
  time : string;
  timestamp : Z;
  pv_symbol : string;
  pv_price : option number;
  volume : Z
}.

(** A property value of a widget object. *)
Inductive Value :=
| VInstrument (i : Instrument)
| VBook (b : BookView)
| VPrint (p : PrintView)
| VOther (tag : string).

(** Widgets are objects compared by identity: a location in a store of
    property maps. *)
Definition loc := nat.

(** One element of the array a widget has in [subs]. *)
Record SubField := {
  field : string;
  datum : TraderDatum
}.

(** A value of the [refs] maps. *)
Record Ref := {
  refCount : Z;
  instrument : Instrument;
  lastOrderbookData : option Orderbook
}.

(** An [AbortController]: its identity and whether [abort] was called. *)
Record AbortController := {
  ac_id : nat;
  aborted : bool
}.

(** What a failed call or stream throws; [isAbortError] tells the first
    from the rest. *)
Inductive JsError :=
| AbortError
| OtherError (message : string).

Definition isAbortError (e : JsError) : bool :=
  match e with
  | AbortError => true
  | OtherError _ => false
  end.

(** How a call ends. *)
Inductive Completion :=
| Normal
| Thrown (e : JsError).

(** The streaming request. *)
Inductive SubscriptionAction :=
| SUBSCRIPTION_ACTION_UNSPECIFIED
| SUBSCRIPTION_ACTION_SUBSCRIBE
| SUBSCRIPTION_ACTION_UNSUBSCRIBE.

Record OrderBookInstrument := {
  obi_instrumentId : string;
  obi_depth : Z
}.

Record TradeInstrument := {
  ti_instrumentId : string
}.

Record SubscribeOrderBookRequest := {
  sob_subscriptionAction : SubscriptionAction;
  sob_instruments : list OrderBookInstrument
}.

Record SubscribeTradesRequest := {
  st_subscriptionAction : SubscriptionAction;
  st_instruments : list TradeInstrument
}.

Record MarketDataRequest := {
  subscribeOrderBookRequest : option SubscribeOrderBookRequest;
  subscribeTradesRequest : option SubscribeTradesRequest
}.

(** One item of the stream: the payloads the loop looks at. *)
Record StreamData := {
  sd_orderbook : option Orderbook;
  sd_trade : option Trade
}.

(** How the loop over the stream is left: the stream runs dry, or an error
    is thrown inside the [try] block (by the stream, or while a message is
    handled). *)
Inductive StreamEnd :=
| Done
| Threw (e : JsError).

(** Calls that leave the trader, and writes a consumer can see, in the
    order they happen. *)
Inductive Event :=
| EvAbort (id : nat)
| EvOpenStream (id : nat) (request : MarketDataRequest)
| EvGetOrderBook (figi : string) (depth : Z)
| EvCache (instrumentId : string)
| EvWrite (source : loc) (fld : string)
| EvNext
| EvResubscribe (reconnect : bool)
| EvSetTimeout (delay : Z)
| EvConsoleError.

(** The [refs] argument of [addFirstRef] and [removeLastRef] is a [Map]
    compared by identity with the trader's own two; any other map is
    foreign. *)
Inductive RefsArg :=
| OrderbookRefs
| AllTradesRefs
| ForeignRefs.

(** The trader instance and what surrounds it: the widget store, the
    pending debounced call, the timers, the clock and the event history. *)
Record State := {
  marketDataAbortController : option AbortController;
  figis : gmap string Instrument;
  subs_orderbook : list (loc * list SubField);
  subs_allTrades : list (loc * list SubField);
  refs_orderbook : list (string * Ref);
  refs_allTrades : list (string * Ref);
  reconnectTimeout : option Z;
  refs_foreign : list (string * Ref);
  heap : gmap loc (gmap string Value);
  next_controller : nat;
  pending : option (bool * Z);
  timers : list Z;
  clock : Z;
  trace : list Event
}.

Definition with_controller (c : option AbortController) (s : State) : State :=
  {| marketDataAbortController := c; figis := figis s;
     subs_orderbook := subs_orderbook s; subs_allTrades := subs_allTrades s;
     refs_orderbook := refs_orderbook s; refs_allTrades := refs_allTrades s;
     reconnectTimeout := reconnectTimeout s; refs_foreign := refs_foreign s;
     heap := heap s; next_controller := next_controller s;
     pending := pending s; timers := timers s; clock := clock s;
     trace := trace s |}.

Definition with_figis (f : gmap string Instrument) (s : State) : State :=
  {| marketDataAbortController := marketDataAbortController s; figis := f;
     subs_orderbook := subs_orderbook s; subs_allTrades := subs_allTrades s;
     refs_orderbook := refs_orderbook s; refs_allTrades := refs_allTrades s;
     reconnectTimeout := reconnectTimeout s; refs_foreign := refs_foreign s;
     heap := heap s; next_controller := next_controller s;
     pending := pending s; timers := timers s; clock := clock s;
     trace := trace s |}.

Definition with_refs_orderbook (r : list (string * Ref)) (s : State) : State :=
  {| marketDataAbortController := marketDataAbortController s; figis := figis s;
     subs_orderbook := subs_orderbook s; subs_allTrades := subs_allTrades s;
     refs_orderbook := r; refs_allTrades := refs_allTrades s;
     reconnectTimeout := reconnectTimeout s; refs_foreign := refs_foreign s;
     heap := heap s; next_controller := next_controller s;
     pending := pending s; timers := timers s; clock := clock s;
     trace := trace s |}.

Definition with_refs_allTrades (r : list (string * Ref)) (s : State) : State :=
  {| marketDataAbortController := marketDataAbortController s; figis := figis s;
     subs_orderbook := subs_orderbook s; subs_allTrades := subs_allTrades s;
     refs_orderbook := refs_orderbook s; refs_allTrades := r;
     reconnectTimeout := reconnectTimeout s; refs_foreign := refs_foreign s;
     heap := heap s; next_controller := next_controller s;
     pending := pending s; timers := timers s; clock := clock s;
     trace := trace s |}.

Definition with_refs_foreign (r : list (string * Ref)) (s : State) : State :=
  {| marketDataAbortController := marketDataAbortController s; figis := figis s;
     subs_orderbook := subs_orderbook s; subs_allTrades := subs_allTrades s;
     refs_orderbook := refs_orderbook s; refs_allTrades := refs_allTrades s;
     reconnectTimeout := reconnectTimeout s; refs_foreign := r;
     heap := heap s; next_controller := next_controller s;
     pending := pending s; timers := timers s; clock := clock s;
     trace := trace s |}.

Definition with_heap (h : gmap loc (gmap string Value)) (s : State) : State :=
  {| marketDataAbortController := marketDataAbortController s; figis := figis s;
     subs_orderbook := subs_orderbook s; subs_allTrades := subs_allTrades s;
     refs_orderbook := refs_orderbook s; refs_allTrades := refs_allTrades s;
     reconnectTimeout := reconnectTimeout s; refs_foreign := refs_foreign s;
     heap := h; next_controller := next_controller s;
     pending := pending s; timers := timers s; clock := clock s;
     trace := trace s |}.

Definition with_next_controller (n : nat) (s : State) : State :=
  {| marketDataAbortController := marketDataAbortController s; figis := figis s;
     subs_orderbook := subs_orderbook s; subs_allTrades := subs_allTrades s;
     refs_orderbook := refs_orderbook s; refs_allTrades := refs_allTrades s;
     reconnectTimeout := reconnectTimeout s; refs_foreign := refs_foreign s;
     heap := heap s; next_controller := n;
     pending := pending s; timers := timers s; clock := clock s;
     trace := trace s |}.

Definition with_pending (p : option (bool * Z)) (s : State) : State :=
  {| marketDataAbortController := marketDataAbortController s; figis := figis s;
     subs_orderbook := subs_orderbook s; subs_allTrades := subs_allTrades s;
     refs_orderbook := refs_orderbook s; refs_allTrades := refs_allTrades s;
     reconnectTimeout := reconnectTimeout s; refs_foreign := refs_foreign s;
     heap := heap s; next_controller := next_controller s;
     pending := p; timers := timers s; clock := clock s;
     trace := trace s |}.

Definition with_timers (t : list Z) (s : State) : State :=
  {| marketDataAbortController := marketDataAbortController s; figis := figis s;
     subs_orderbook := subs_orderbook s; subs_allTrades := subs_allTrades s;
     refs_orderbook := refs_orderbook s; refs_allTrades := refs_allTrades s;
     reconnectTimeout := reconnectTimeout s; refs_foreign := refs_foreign s;
     heap := heap s; next_controller := next_controller s;
     pending := pending s; timers := t; clock := clock s;
     trace := trace s |}.

Definition with_clock (c : Z) (s : State) : State :=
  {| marketDataAbortController := marketDataAbortController s; figis := figis s;
     subs_orderbook := subs_orderbook s; subs_allTrades := subs_allTrades s;
     refs_orderbook := refs_orderbook s; refs_allTrades := refs_allTrades s;
     reconnectTimeout := reconnectTimeout s; refs_foreign := refs_foreign s;
     heap := heap s; next_controller := next_controller s;
     pending := pending s; timers := timers s; clock := c;
     trace := trace s |}.

(** Appends one event to the history. *)
Definition emit (e : Event) (s : State) : State :=
  {| marketDataAbortController := marketDataAbortController s; figis := figis s;
     subs_orderbook := subs_orderbook s; subs_allTrades := subs_allTrades s;
     refs_orderbook := refs_orderbook s; refs_allTrades := refs_allTrades s;
     reconnectTimeout := reconnectTimeout s; refs_foreign := refs_foreign s;
     heap := heap s; next_controller := next_controller s;
     pending := pending s; timers := timers s; clock := clock s;
     trace := trace s ++ [e] |}.

(** ** Quotation conversions *)

Definition toQuotation (value : number) : Quotation :=
  let sign : number := if Qlt_le_dec value 0 then (-1)%Q else 1%Q in
  let absValue := Binary64.Math_abs value in
  let units' := Binary64.Math_floor absValue in
  let nano' :=
    Binary64.Math_round
      (Binary64.fmul (Binary64.fsub absValue units') 1000000000%Q) in
  {| units := Binary64.fmul sign units';
     nano := Binary64.fmul sign nano' |}.

(** [value ? value.units + value.nano / 1000000000 : value]: an absent
    quotation is handed back as it is. *)
Definition toNumber (value : option Quotation) : option number :=
  match value with
  | Some v =>
      Some (Binary64.fadd (units v) (Binary64.fdiv (nano v) 1000000000%Q))
  | None => None
  end.

(** A finite binary64 value. *)
Definition finite (x : number) : Prop :=
  Binary64.F x ∧ (Qabs x < Binary64.pow2 1024)%Q.

(** The invariant of a quotation: units and nano have the same sign, and the
    magnitude of nano is below one billion. *)
Definition quotation_ok (q : Quotation) : Prop :=
  ((0 <= units q ∧ 0 <= nano q) ∨ (units q <= 0 ∧ nano q <= 0))%Q
  ∧ (Qabs (nano q) < 1000000000)%Q.

(** The binary64 value the literal [0.9999999999] denotes. *)
Definition just_below_one : number :=
  Binary64.rnd (9999999999 # 10000000000).


(** ** Symbols and service clients *)

(** The character [~]. *)
Definition tilde : Ascii.ascii := Ascii.ascii_of_nat 126.

(** [/~/gi.test(symbol)]. *)
Fixpoint has_tilde (s : string) : bool :=
  match s with
  | EmptyString => false
  | String c r => Ascii.eqb c tilde || has_tilde r
  end.

(** [symbol.split('~')[0]]. *)
Fixpoint before_tilde (s : string) : string :=
  match s with
  | EmptyString => EmptyString
  | String c r => if Ascii.eqb c tilde then EmptyString else String c (before_tilde r)
  end.

(** [getSymbol(instrument = {})]: without an instrument the symbol is
    undefined, and so is the result. *)
Definition getSymbol (ins : option Instrument) : option string :=
  match ins with
  | Some i =>
      Some (if has_tilde (symbol i) then before_tilde (symbol i) else symbol i)
  | None => None
  end.

(** The [#clients] map with the number of clients created so far; a service
    definition is named by a string, a client by its number of creation. *)
Record Clients := {
  clients : list (string * nat);
  created : nat
}.

(** [getOrCreateClient(service)]: the new cache and what is returned. *)
Definition getOrCreateClient (service : string) (c : Clients)
    : Clients * option nat :=
  let c' :=
    match JsMap.get service (clients c) with
    | Some _ => c
    | None =>
        {| clients := JsMap.set service (created c) (clients c);
           created := S (created c) |}
    end in
  (c', JsMap.get service (clients c')).

(** Calls for a list of services, one after the other. *)
Definition request_clients (services : list string) (c : Clients) : Clients :=
  fold_left (fun c s => (getOrCreateClient s c).1) services c.

(** ** The registry and the router *)

(** [source.instrument], when it holds an instrument. *)
Definition source_instrument (st : State) (source : loc) : option Instrument :=
  match heap st !! source with
  | Some props =>
      match props !! "instrument" with
      | Some (VInstrument i) => Some i
      | _ => None
      end
  | None => None
  end.

(** [source[field] = v]. *)
Definition write_field (source : loc) (fld : string) (v : Value) (st : State) : State :=
  emit (EvWrite source fld)
    (with_heap (<[source := <[fld := v]> (default ∅ (heap st !! source))]> (heap st)) st).

Definition book_level (b : Order) : Level :=
  {| lv_price := toNumber (price b); lv_volume := quantity b |}.

(** The value written for a book: [?.map?.(...) ?? []] on both sides. *)
Definition book_view (orderbook : Orderbook) : BookView :=
  {| bids := default [] (map book_level <$> ob_bids orderbook);
     asks := default [] (map book_level <$> ob_asks orderbook) |}.

(** The inner loop of [onOrderbookMessage] over one widget's fields. *)
Definition orderbook_fields (source : loc) (orderbook : Orderbook)
    (fields : list SubField) (st : State) : State :=
  fold_left
    (fun st f =>
       match datum f with
       | ORDERBOOK => write_field source (field f) (VBook (book_view orderbook)) st
       | _ => st
       end)
    fields st.

Definition cache_orderbook (ref : Ref) (orderbook : Orderbook) : Ref :=
  {| refCount := refCount ref; instrument := instrument ref;
     lastOrderbookData := Some orderbook |}.

(** The body of the outer loop of [onOrderbookMessage] for one entry of
    [subs.orderbook]. *)
Definition orderbook_source (orderbook : Orderbook) (ins : Instrument)
    (st : State) (entry : loc * list SubField) : State :=
  match source_instrument st entry.1 with
  | Some si =>
      if decide (_id si = _id ins) then
        match JsMap.get (_id si) (refs_orderbook st) with
        | Some ref =>
            orderbook_fields entry.1 orderbook entry.2
              (emit (EvCache (_id si))
                 (with_refs_orderbook
                    (JsMap.set (_id si) (cache_orderbook ref orderbook)
                       (refs_orderbook st)) st))
        | None => st
        end
      else st
  | None => st
  end.

Definition onOrderbookMessage (orderbook : option Orderbook)
    (ins : option Instrument) (st : State) : State :=
  match orderbook, ins with
  | Some ob, Some i => fold_left (orderbook_source ob i) (subs_orderbook st) st
  | _, _ => st
  end.

(** [Array.prototype.slice(start)] with one argument. *)
Definition slice {A : Type} (start : Z) (l : list A) : list A :=
  let len := Z.of_nat (length l) in
  let k := if start <? 0 then Z.max (len + start) 0 else Z.min start len in
  drop (Z.to_nat k) l.

Section Trader.

(** The two conversions to text that the runtime provides:
    [Number.prototype.toString] on a price and [Date.prototype.toISOString]
    on a time value. *)
Variable Number_toString : number → string.
Variable Date_toISOString : Z → string.

(** The two members of the [TradeDirection] enumeration the code compares
    with; the service definitions are not among the sources. *)
Variable TRADE_DIRECTION_BUY : Z.
Variable TRADE_DIRECTION_SELL : Z.

Definition trade_side (direction : Z) : string :=
  if decide (direction = TRADE_DIRECTION_BUY) then "buy"
  else if decide (direction = TRADE_DIRECTION_SELL) then "sell"
  else "".

Definition price_text (p : option number) : string :=
  match p with
  | Some q => Number_toString q
  | None => "undefined"
  end.

(** The record built for a trade, by [allTrades] and by [onTradeMessage]
    alike. *)
Definition trade_print (ins : Instrument) (trade : Trade) : PrintView :=
  let timestamp' := tr_time trade in
  let price' := toNumber (tr_price trade) in
  {| orderId :=
       symbol ins +:+ "|" +:+ pretty (tr_direction trade)
       +:+ "|" +:+ price_text price' +:+ "|" +:+ pretty (tr_quantity trade)
       +:+ "|" +:+ pretty timestamp';
     side := trade_side (tr_direction trade);
     time := Date_toISOString (tr_time trade);
     timestamp := timestamp';
     pv_symbol := symbol ins;
     pv_price := price';
     volume := tr_quantity trade |}.

(** [allTrades({ instrument, depth })], given what [getLastTrades] answers. *)
Definition allTrades (ins : option Instrument) (depth : Z)
    (response : JsError + list Trade) : JsError + list PrintView :=
  match ins with
  | Some i =>
      match response with
      | inl e => inl e
      | inr trades => inr (map (trade_print i) (rev (slice (- depth) trades)))
      end
  | None => inr []
  end.

Definition trade_fields (source : loc) (ins : Instrument) (trade : Trade)
    (fields : list SubField) (st : State) : State :=
  fold_left
    (fun st f =>
       match datum f with
       | MARKET_PRINT => write_field source (field f) (VPrint (trade_print ins trade)) st
       | _ => st
       end)
    fields st.

Definition trade_source (trade : Trade) (ins : Instrument)
    (st : State) (entry : loc * list SubField) : State :=
  match source_instrument st entry.1 with
  | Some si =>
      if decide (_id si = _id ins) then trade_fields entry.1 ins trade entry.2 st
      else st
  | None => st
  end.

Definition onTradeMessage (trade : option Trade) (ins : option Instrument)
    (st : State) : State :=
  match trade, ins with
  | Some t, Some i => fold_left (trade_source t i) (subs_allTrades st) st
  | _, _ => st
  end.

(** ** The stream controller *)

(** [this.#marketDataAbortController?.abort?.()]. *)
Definition abort_controller (st : State) : State :=
  match marketDataAbortController st with
  | Some c =>
      emit (EvAbort (ac_id c))
        (with_controller (Some {| ac_id := ac_id c; aborted := true |}) st)
  | None => st
  end.

(** Modelled from the spec: the [debounce] decorator of [ppp-throttle.js],
    which is not among the sources. Within the window only the last request
    is kept, and it is sent once the window has passed without another. *)
Definition debounce_window : Z := 100.

(** Modelled from the spec: the public [resubscribeToMarketData(reconnect)]
    under [@debounce(100)]. The call only leaves a pending request, which
    replaces the one pending before and restarts the window. *)
Definition resubscribeToMarketData (reconnect : bool) (st : State) : State :=
  emit (EvResubscribe reconnect)
    (with_pending (Some (reconnect, clock st + debounce_window)) st).

(** [!this.refs.orderbook.size && !this.refs.allTrades.size]. *)
Definition refs_empty (st : State) : bool :=
  (JsMap.size (refs_orderbook st) =? 0)%nat
  && (JsMap.size (refs_allTrades st) =? 0)%nat.

(** The request object built at the start of [#resubscribeToMarketData]. *)
Definition buildRequest (st : State) : MarketDataRequest :=
  let orderbookRefsArray := JsMap.values (refs_orderbook st) in
  let allTradesRefsArray := JsMap.values (refs_allTrades st) in
  {| subscribeOrderBookRequest :=
       if (0 <? length orderbookRefsArray)%nat then
         Some {| sob_subscriptionAction := SUBSCRIPTION_ACTION_SUBSCRIBE;
                 sob_instruments :=
                   map (fun r => {| obi_instrumentId := tinkoffFigi (instrument r);
                                    obi_depth := 50 |})
                       (JsMap.values (refs_orderbook st)) |}
       else None;
     subscribeTradesRequest :=
       if (0 <? length allTradesRefsArray)%nat then
         Some {| st_subscriptionAction := SUBSCRIPTION_ACTION_SUBSCRIBE;
                 st_instruments :=
                   map (fun r => {| ti_instrumentId := tinkoffFigi (instrument r) |})
                       (JsMap.values (refs_allTrades st)) |}
       else None |}.

(** The unary snapshot calls a reconnect issues, one per order-book ref. *)
Definition request_snapshots (st : State) : State :=
  fold_left
    (fun st r => emit (EvGetOrderBook (tinkoffFigi (instrument r)) 50) st)
    (JsMap.values (refs_orderbook st)) st.

(** [#resubscribeToMarketData(reconnect)] up to its first suspension: the
    guard, the request, the abort of the previous call, the new controller,
    the opening of the stream and, on a reconnect, the snapshot calls. *)
Definition resubscribe_begin (reconnect : bool) (st : State) : State :=
  if refs_empty st then st
  else
    let request := buildRequest st in
    let st1 := abort_controller st in
    let id := next_controller st1 in
    let st2 :=
      with_next_controller (S id)
        (with_controller (Some {| ac_id := id; aborted := false |}) st1) in
    let st3 := emit (EvOpenStream id request) st2 in
    if reconnect then request_snapshots st3 else st3.

(** A snapshot call of a reconnect has answered. *)
Definition snapshot_arrived (ins : Instrument) (orderbook : Orderbook)
    (st : State) : State :=
  onOrderbookMessage (Some orderbook) (Some ins) st.

(** One turn of the [for await] loop. *)
Definition stream_item (data : StreamData) (st : State) : State :=
  let st := emit EvNext st in
  match sd_orderbook data with
  | Some ob => onOrderbookMessage (Some ob) (figis st !! ob_figi ob) st
  | None =>
      match sd_trade data with
      | Some t => onTradeMessage (Some t) (figis st !! tr_figi t) st
      | None => st
      end
  end.

(** [Math.max(this.document.reconnectTimeout ?? 1000, 1000)]. *)
Definition reconnect_delay (st : State) : Z :=
  Z.max (default 1000 (reconnectTimeout st)) 1000.

(** [setTimeout(() => this.resubscribeToMarketData(true), delay)]. *)
Definition setTimeout (delay : Z) (st : State) : State :=
  emit (EvSetTimeout delay) (with_timers (timers st ++ [clock st + delay]) st).

(** What follows the loop: the call after a stream that ran dry, or the
    [catch] block. *)
Definition session_end (ending : StreamEnd) (st : State) : State :=
  match ending with
  | Done => resubscribeToMarketData true st
  | Threw e =>
      if isAbortError e then st
      else setTimeout (reconnect_delay st) (emit EvConsoleError st)
  end.

(** A timer of [setTimeout] comes due. *)
Definition timer_fire (i : nat) (st : State) : State :=
  match timers st !! i with
  | Some due =>
      if due <=? clock st then
        resubscribeToMarketData true (with_timers (delete i (timers st)) st)
      else st
  | None => st
  end.

(** Modelled from the spec: the debounce window has passed, and the pending
    request is sent with the argument of its call. *)
Definition debounce_fire (st : State) : State :=
  match pending st with
  | Some (reconnect, due) =>
      if due <=? clock st then resubscribe_begin reconnect (with_pending None st)
      else st
  | None => st
  end.

(** What one session meets: the answers of the snapshot calls by figi and
    the time at which each arrives, the items of the stream that are routed,
    and how the loop over the stream is left afterwards (the stream runs
    dry, or something is thrown inside the [try] block). *)
Record Session := {
  snapshot_of : string → JsError + Orderbook;
  answered_at : string → nat;
  items : list StreamData;
  ending : StreamEnd
}.

(** A call put among calls that are sorted by the time of their answer,
    before the first one that is answered no earlier. *)
Fixpoint insert_arrival (rank : Instrument → nat) (x : Instrument)
    (l : list Instrument) : list Instrument :=
  match l with
  | [] => [x]
  | y :: l' =>
      if (rank x <=? rank y)%nat then x :: y :: l'
      else y :: insert_arrival rank x l'
  end.

(** The calls in the order in which their answers arrive; calls answered at
    the same time keep the order in which they were made. *)
Definition arrival_order (rank : Instrument → nat) (calls : list Instrument)
    : list Instrument :=
  fold_right (insert_arrival rank) [] calls.

(** The snapshot calls of a reconnect under [Promise.all], taken in the
    order in which they are answered. A book is routed when it arrives. The
    first rejection rejects [Promise.all]: the [catch] block runs at that
    point, and that error is the one reported. The calls answered later are
    still running: their books are routed when they arrive, and their
    rejections are dropped. *)
Definition apply_snapshots (answers : string → JsError + Orderbook)
    (arrivals : list Instrument) (st : State) : State * option JsError :=
  fold_left
    (fun acc ins =>
       match answers (tinkoffFigi ins) with
       | inr ob => (snapshot_arrived ins ob acc.1, acc.2)
       | inl e =>
           match acc.2 with
           | Some _ => acc
           | None => (session_end (Threw e) acc.1, Some e)
           end
       end)
    arrivals (st, None).

(** [#resubscribeToMarketData(reconnect)] run through one session with
    nothing else in between. The loop over the stream starts once every
    snapshot call has answered with a book; after a rejected snapshot call
    it never starts. *)
Definition priv_resubscribeToMarketData (reconnect : bool) (session : Session)
    (st : State) : State :=
  if refs_empty st then st
  else
    let arrivals :=
      arrival_order (fun ins => answered_at session (tinkoffFigi ins))
        (map instrument (JsMap.values (refs_orderbook st))) in
    let st1 := resubscribe_begin reconnect st in
    let synced :=
      if reconnect then apply_snapshots (snapshot_of session) arrivals st1
      else (st1, None) in
    match synced.2 with
    | Some _ => synced.1
    | None =>
        session_end (ending session)
          (fold_left (fun st d => stream_item d st) (items session) synced.1)
    end.

(** ** Adding and removing refs *)

Definition refs_of (refs : RefsArg) (st : State) : list (string * Ref) :=
  match refs with
  | OrderbookRefs => refs_orderbook st
  | AllTradesRefs => refs_allTrades st
  | ForeignRefs => refs_foreign st
  end.

Definition with_refs (refs : RefsArg) (m : list (string * Ref)) (st : State) : State :=
  match refs with
  | OrderbookRefs => with_refs_orderbook m st
  | AllTradesRefs => with_refs_allTrades m st
  | ForeignRefs => with_refs_foreign m st
  end.

Definition first_ref (ins : Instrument) : Ref :=
  {| refCount := 1; instrument := ins; lastOrderbookData := None |}.

(** [addFirstRef] up to its [await]: the new ref, the index entry and, for
    the order book, the snapshot call. *)
Definition addFirstRef_begin (ins : Instrument) (refs : RefsArg) (st : State) : State :=
  let st1 := with_refs refs (JsMap.set (_id ins) (first_ref ins) (refs_of refs st)) st in
  let st2 := with_figis (<[tinkoffFigi ins := ins]> (figis st1)) st1 in
  match refs with
  | OrderbookRefs => emit (EvGetOrderBook (tinkoffFigi ins) 50) st2
  | _ => st2
  end.

(** [addFirstRef] from the answer of the snapshot call on. *)
Definition addFirstRef_resume (ins : Instrument) (refs : RefsArg)
    (response : JsError + Orderbook) (st : State) : State * Completion :=
  match refs with
  | OrderbookRefs =>
      match response with
      | inl e => (st, Thrown e)
      | inr ob =>
          (resubscribeToMarketData false
             (onOrderbookMessage (Some ob) (Some ins) st), Normal)
      end
  | AllTradesRefs => (resubscribeToMarketData false st, Normal)
  | ForeignRefs => (st, Normal)
  end.

Definition addFirstRef (ins : Instrument) (refs : RefsArg)
    (response : JsError + Orderbook) (st : State) : State * Completion :=
  addFirstRef_resume ins refs response (addFirstRef_begin ins refs st).

Definition removeLastRef (ins : Instrument) (refs : RefsArg) (st : State)
    : State * Completion :=
  let st1 :=
    match refs with
    | OrderbookRefs =>
        with_refs_orderbook (JsMap.delete (_id ins) (refs_orderbook st)) st
    | _ => st
    end in
  let st2 :=
    match refs with
    | AllTradesRefs =>
        with_refs_allTrades (JsMap.delete (_id ins) (refs_allTrades st1)) st1
    | _ => st1
    end in
  (if refs_empty st2 then abort_controller st2 else st2, Normal).

(** The part of [instrumentChanged] after the call to the base class. The
    guard [if (newValue?._id)] lets a present instrument through unless its
    id is the empty string, which is falsy. *)
Definition instrumentChanged (newValue : option Instrument) (st : State) : State :=
  match newValue with
  | Some i =>
      if decide (_id i = "") then st
      else
        onOrderbookMessage
          (JsMap.get (_id i) (refs_orderbook st) ≫= lastOrderbookData)
          (Some i) st
  | None => st
  end.

(** ** Histories

    The trader runs on one thread: between two suspensions a piece of code
    runs alone. An action is one such piece, or a move of the surroundings
    (the framework changing its subscription records and widgets, time
    passing). *)
Inductive Action :=
| AddFirstRefBegin (ins : Instrument) (refs : RefsArg)
| AddFirstRefResume (ins : Instrument) (refs : RefsArg) (response : JsError + Orderbook)
| RemoveLastRef (ins : Instrument) (refs : RefsArg)
| DebounceFire
| SnapshotArrived (ins : Instrument) (orderbook : Orderbook)
| StreamItem (data : StreamData)
| SessionEnd (ending : StreamEnd)
| TimerFire (i : nat)
| Tick (dt : Z)
| InstrumentChanged (newValue : option Instrument)
| Framework (subs_ob subs_tr : list (loc * list SubField))
    (widgets : gmap loc (gmap string Value)).

Definition with_framework (subs_ob subs_tr : list (loc * list SubField))
    (widgets : gmap loc (gmap string Value)) (s : State) : State :=
  {| marketDataAbortController := marketDataAbortController s; figis := figis s;
     subs_orderbook := subs_ob; subs_allTrades := subs_tr;
     refs_orderbook := refs_orderbook s; refs_allTrades := refs_allTrades s;
     reconnectTimeout := reconnectTimeout s; refs_foreign := refs_foreign s;
     heap := widgets; next_controller := next_controller s;
     pending := pending s; timers := timers s; clock := clock s;
     trace := trace s |}.

Definition perform (st : State) (a : Action) : State :=
  match a with
  | AddFirstRefBegin ins refs => addFirstRef_begin ins refs st
  | AddFirstRefResume ins refs response => (addFirstRef_resume ins refs response st).1
  | RemoveLastRef ins refs => (removeLastRef ins refs st).1
  | DebounceFire => debounce_fire st
  | SnapshotArrived ins ob => snapshot_arrived ins ob st
  | StreamItem data => stream_item data st
  | SessionEnd ending => session_end ending st
  | TimerFire i => timer_fire i st
  | Tick dt => with_clock (clock st + Z.max dt 0) st
  | InstrumentChanged newValue => instrumentChanged newValue st
  | Framework subs_ob subs_tr widgets => with_framework subs_ob subs_tr widgets st
  end.

(** The trader as its constructor leaves it. *)
Definition initial (timeout : option Z) : State :=
  {| marketDataAbortController := None; figis := ∅;
     subs_orderbook := []; subs_allTrades := [];
     refs_orderbook := []; refs_allTrades := [];
     reconnectTimeout := timeout; refs_foreign := [];
     heap := ∅; next_controller := 0%nat;
     pending := None; timers := []; clock := 0;
     trace := [] |}.

Definition run (actions : list Action) (st : State) : State :=
  fold_left perform actions st.

(** A session exists while the current controller has not been aborted. *)
Definition session_live (st : State) : bool :=
  match marketDataAbortController st with
  | Some c => negb (aborted c)
  | None => false
  end.

(** [source[fld]] as a consumer reads it. *)
Definition prop_of (st : State) (source : loc) (fld : string) : option Value :=
  default ∅ (heap st !! source) !! fld.

(** The consumer at [source] is bound to the instrument [ins]:
    [source.instrument?._id === ins._id]. *)
Definition bound_to (st : State) (source : loc) (ins : Instrument) : bool :=
  match source_instrument st source with
  | Some si => bool_decide (_id si = _id ins)
  | None => false
  end.

(** The fields of one subscription record that receive a book. *)
Definition is_ORDERBOOK (d : TraderDatum) : bool :=
  match d with
  | ORDERBOOK => true
  | _ => false
  end.

Definition targets (fields : list SubField) : list string :=
  map field (List.filter (fun f => is_ORDERBOOK (datum f)) fields).

(** ** Vocabulary of the properties *)

(** A state that differs from [st] in the widget store, the order-book refs
    and the events added. *)
Definition routed (h : gmap loc (gmap string Value)) (r : list (string * Ref))
    (evs : list Event) (s : State) : State :=
  {| marketDataAbortController := marketDataAbortController s; figis := figis s;
     subs_orderbook := subs_orderbook s; subs_allTrades := subs_allTrades s;
     refs_orderbook := r; refs_allTrades := refs_allTrades s;
     reconnectTimeout := reconnectTimeout s; refs_foreign := refs_foreign s;
     heap := h; next_controller := next_controller s;
     pending := pending s; timers := timers s; clock := clock s;
     trace := trace s ++ evs |}.

(** The events the router adds: cachings and writes. *)
Definition router_event (e : Event) : bool :=
  match e with
  | EvCache _ | EvWrite _ _ => true
  | _ => false
  end.

(** Every write in a history has the caching of the message before it. *)
Definition cache_first (id : string) (evs : list Event) : Prop :=
  ∀ pre w f post, evs = pre ++ EvWrite w f :: post → EvCache id ∈ pre.

(** What [abort_controller] adds to the history. *)
Definition abort_events (st : State) : list Event :=
  match marketDataAbortController st with
  | Some c => [EvAbort (ac_id c)]
  | None => []
  end.

(** The snapshot calls of a reconnect, in the order of the order-book refs. *)
Definition snapshot_calls (st : State) : list Event :=
  map (fun r => EvGetOrderBook (tinkoffFigi (instrument r)) 50)
      (JsMap.values (refs_orderbook st)).

(** With both ref maps empty there is no live session. *)
Definition idle_inv (st : State) : Prop :=
  refs_empty st = true → session_live st = false.

Definition is_MARKET_PRINT (d : TraderDatum) : bool :=
  match d with
  | MARKET_PRINT => true
  | _ => false
  end.

(** The [k] newest elements of a list that is ordered oldest first. *)
Definition most_recent {A : Type} (k : nat) (l : list A) : list A :=
  drop (length l - k) l.


(** What a ref map says apart from the cached books: the keys in the order
    of the map, each with its count and its instrument. *)
Definition registry_shape (m : list (string * Ref))
    : list (string * Z * Instrument) :=
  map (fun kr => (kr.1, refCount kr.2, instrument kr.2)) m.

(** The registry and the index agree: every ref of the trader's two maps is
    filed under the id of its instrument and has the figi of its instrument
    in the index, and every index entry is filed under the figi of its
    instrument. *)
Definition indexed (st : State) : Prop :=
  (∀ k r,
     JsMap.get k (refs_orderbook st) = Some r
     ∨ JsMap.get k (refs_allTrades st) = Some r →
     _id (instrument r) = k
     ∧ is_Some (figis st !! tinkoffFigi (instrument r)))
  ∧ (∀ f i, figis st !! f = Some i → tinkoffFigi i = f).

(** The streams that are open after a history, oldest first: a stream is
    opened under the id of its controller, and the abort of that controller
    closes it. *)
Definition stream_step (live : list nat) (e : Event) : list nat :=
  match e with
  | EvOpenStream id _ => live ++ [id]
  | EvAbort id => List.filter (fun x => negb (x =? id)%nat) live
  | _ => live
  end.

Definition live_streams (evs : list Event) : list nat :=
  fold_left stream_step evs [].

(** The stream of the current controller, unless that was aborted. *)
Definition current_stream (st : State) : list nat :=
  match marketDataAbortController st with
  | Some c => if aborted c then [] else [ac_id c]
  | None => []
  end.

(** Events that open or close a stream. *)
Definition stream_event (e : Event) : bool :=
  match e with
  | EvOpenStream _ _ | EvAbort _ => true
  | _ => false
  end.

(** Starting with the streams [live], at no point of [evs] is more than one
    stream open. *)
Definition at_most_one (live : list nat) (evs : list Event) : Prop :=
  ∀ pre post, evs = pre ++ post →
    (length (fold_left stream_step pre live) ≤ 1)%nat.

(** The open streams are the current one, and were never more than one. *)
Definition stream_inv (st : State) : Prop :=
  live_streams (trace st) = current_stream st
  ∧ at_most_one [] (trace st).

(** The fields of one subscription record that receive a trade print. *)
Definition print_targets (fields : list SubField) : list string :=
  map field (List.filter (fun f => is_MARKET_PRINT (datum f)) fields).

(** * Properties *)

(** ** Facts about [JsMap] *)

Lemma JsMap_get_set_eq {V : Type} k (v : V) m :
  JsMap.get k (JsMap.set k v m) = Some v.
Proof.
  induction m as [|[k' v'] m IH]; simpl.
  - by rewrite decide_True.
  - destruct (decide (k = k')) as [->|Hne]; simpl.
    + by rewrite decide_True.
    + by rewrite decide_False.
Qed.

Lemma JsMap_get_set_ne {V : Type} k k' (v : V) m :
  k ≠ k' → JsMap.get k' (JsMap.set k v m) = JsMap.get k' m.
Proof.
  intros Hne. induction m as [|[k0 v0] m IH]; simpl.
  - by rewrite decide_False.
  - destruct (decide (k = k0)) as [->|Hne0]; simpl.
    + by rewrite !decide_False.
    + destruct (decide (k' = k0)); [done | apply IH].
Qed.

Lemma JsMap_get_delete_eq {V : Type} k (m : list (string * V)) :
  JsMap.get k (JsMap.delete k m) = None.
Proof.
  induction m as [|[k' v'] m IH]; simpl; [done|].
  destruct (decide (k = k')) as [->|Hne]; simpl; [done|].
  by rewrite decide_False.
Qed.

Lemma JsMap_get_delete_ne {V : Type} k k' (m : list (string * V)) :
  k ≠ k' → JsMap.get k' (JsMap.delete k m) = JsMap.get k' m.
Proof.
  intros Hne. induction m as [|[k0 v0] m IH]; simpl; [done|].
  destruct (decide (k = k0)) as [->|Hne0]; simpl.
  - by rewrite decide_False.
  - by rewrite IH.
Qed.

Lemma JsMap_delete_absent {V : Type} k (m : list (string * V)) :
  JsMap.get k m = None → JsMap.delete k m = m.
Proof.
  induction m as [|[k0 v0] m IH]; simpl; [done|].
  destruct (decide (k = k0)); [done|]. intros H. by rewrite IH.
Qed.

Lemma JsMap_set_not_empty {V : Type} k (v : V) m : JsMap.set k v m ≠ [].
Proof.
  destruct m as [|[k0 v0] m]; simpl; [done|]. by destruct (decide (k = k0)).
Qed.

(** Overwriting a present key keeps the keys, their order and the other
    values. *)
Lemma JsMap_set_present_keys {V : Type} k (v : V) m :
  is_Some (JsMap.get k m) → map fst (JsMap.set k v m) = map fst m.
Proof.
  induction m as [|[k0 v0] m IH]; simpl.
  - by intros [? ?].
  - destruct (decide (k = k0)) as [->|Hne]; simpl; [done|].
    intros H. by rewrite IH.
Qed.

Lemma JsMap_size_zero {V : Type} (m : list (string * V)) :
  (JsMap.size m =? 0)%nat = true ↔ m = [].
Proof.
  unfold JsMap.size. destruct m; simpl; split; intros H; done.
Qed.

(** ** The router *)

Lemma routed_id st : routed (heap st) (refs_orderbook st) [] st = st.
Proof. destruct st. unfold routed. simpl. by rewrite app_nil_r. Qed.

Lemma routed_routed h r evs h' r' evs' st :
  routed h' r' evs' (routed h r evs st) = routed h' r' (evs ++ evs') st.
Proof. unfold routed. simpl. by rewrite app_assoc. Qed.

Lemma targets_cons f fs :
  targets (f :: fs) =
  if is_ORDERBOOK (datum f) then field f :: targets fs else targets fs.
Proof. unfold targets. simpl. by destruct (is_ORDERBOOK (datum f)). Qed.

Lemma orderbook_fields_cons src ob f fs st :
  orderbook_fields src ob (f :: fs) st
  = orderbook_fields src ob fs
      (if is_ORDERBOOK (datum f)
       then write_field src (field f) (VBook (book_view ob)) st else st).
Proof. unfold orderbook_fields. simpl. by destruct (datum f). Qed.

(** The inner loop writes the projected book into the targets of the record,
    at this widget and nowhere else. *)
Lemma orderbook_fields_routed src ob fs st :
  ∃ h,
    orderbook_fields src ob fs st
    = routed h (refs_orderbook st) (map (EvWrite src) (targets fs)) st
    ∧ (∀ l, l ≠ src → h !! l = heap st !! l)
    ∧ (∀ f, default ∅ (h !! src) !! f
            = if bool_decide (f ∈ targets fs) then Some (VBook (book_view ob))
              else prop_of st src f).
Proof.
  revert st. induction fs as [|f0 fs IH]; intros st.
  - exists (heap st). split; [by rewrite routed_id|]. split; [done|].
    intros f. by rewrite bool_decide_eq_false_2 by apply not_elem_of_nil.
  - rewrite orderbook_fields_cons, targets_cons.
    destruct (is_ORDERBOOK (datum f0)); [|apply IH].
    destruct (IH (write_field src (field f0) (VBook (book_view ob)) st))
      as (h & E & H1 & H2).
    exists h. split; [|split].
    + rewrite E. unfold routed, write_field, emit, with_heap. simpl.
      by rewrite <- app_assoc.
    + intros l Hl. rewrite (H1 l Hl). simpl. by rewrite lookup_insert_ne.
    + intros f. rewrite H2. unfold prop_of. simpl. rewrite lookup_insert_eq. simpl.
      destruct (decide (f = field f0)) as [->|Hne].
      * rewrite lookup_insert_eq.
        rewrite (bool_decide_eq_true_2 (field f0 ∈ field f0 :: targets fs))
          by apply list_elem_of_here.
        by destruct (bool_decide (field f0 ∈ targets fs)).
      * rewrite lookup_insert_ne by done.
        destruct (bool_decide (f ∈ targets fs)) eqn:Hb.
        -- apply bool_decide_eq_true_1 in Hb.
           by rewrite bool_decide_eq_true_2 by (by apply list_elem_of_further).
        -- apply bool_decide_eq_false_1 in Hb.
           rewrite bool_decide_eq_false_2; [done|].
           by intros [?|?]%elem_of_cons.
Qed.

(** One entry of [subs.orderbook]: nothing happens (the widget is not bound
    to the instrument, or no ref exists), or the message is cached in the ref
    and the widget's targets are written. *)
Lemma orderbook_source_cases ob ins st e :
  ((bound_to st e.1 ins = false
    ∨ JsMap.get (_id ins) (refs_orderbook st) = None)
   ∧ orderbook_source ob ins st e = st)
  ∨ ∃ ref h,
      bound_to st e.1 ins = true
      ∧ JsMap.get (_id ins) (refs_orderbook st) = Some ref
      ∧ orderbook_source ob ins st e
        = routed h
            (JsMap.set (_id ins) (cache_orderbook ref ob) (refs_orderbook st))
            (EvCache (_id ins) :: map (EvWrite e.1) (targets e.2)) st
      ∧ (∀ l, l ≠ e.1 → h !! l = heap st !! l)
      ∧ (∀ f, default ∅ (h !! e.1) !! f
              = if bool_decide (f ∈ targets e.2)
                then Some (VBook (book_view ob)) else prop_of st e.1 f).
Proof.
  unfold orderbook_source, bound_to.
  destruct (source_instrument st e.1) as [si|] eqn:Hsi; [|left; by auto].
  destruct (decide (_id si = _id ins)) as [Hid|Hid];
    [|left; split; [left; by rewrite bool_decide_eq_false_2 | done]].
  rewrite Hid.
  destruct (JsMap.get (_id ins) (refs_orderbook st)) as [ref|] eqn:Hget;
    [|left; by auto].
  right. exists ref.
  set (st_c := emit (EvCache (_id ins))
                 (with_refs_orderbook
                    (JsMap.set (_id ins) (cache_orderbook ref ob) (refs_orderbook st))
                    st)).
  destruct (orderbook_fields_routed e.1 ob e.2 st_c) as (h & E & H1 & H2).
  exists h. split; [by rewrite bool_decide_eq_true_2|]. split; [done|].
  split; [|split].
  - rewrite E. unfold routed, st_c, emit, with_refs_orderbook. simpl.
    by rewrite <- app_assoc.
  - exact H1.
  - exact H2.
Qed.

Lemma bound_to_heap st st' l ins :
  heap st' !! l = heap st !! l → bound_to st' l ins = bound_to st l ins.
Proof. intros H. unfold bound_to, source_instrument. by rewrite H. Qed.

(** A widget that is not bound to the instrument is left as it is. *)
Lemma orderbook_fold_unbound ob ins entries st l :
  bound_to st l ins = false →
  heap (fold_left (orderbook_source ob ins) entries st) !! l = heap st !! l.
Proof.
  revert st. induction entries as [|e entries IH]; intros st Hl; [done|].
  simpl.
  assert (Hstep : heap (orderbook_source ob ins st e) !! l = heap st !! l).
  { destruct (orderbook_source_cases ob ins st e)
      as [[_ ->]|(ref & h & Hb & _ & -> & H1 & _)]; [done|].
    simpl. apply H1. intros ->. congruence. }
  rewrite IH; [done|]. by rewrite (bound_to_heap st).
Qed.

(** A property that is no target of the widget's records is left as it is. *)
Lemma orderbook_fold_untargeted ob ins entries st l f :
  (∀ fields, (l, fields) ∈ entries → f ∉ targets fields) →
  prop_of (fold_left (orderbook_source ob ins) entries st) l f = prop_of st l f.
Proof.
  revert st. induction entries as [|e entries IH]; intros st Hnt; [done|].
  simpl. rewrite IH by (intros fields Hin; apply Hnt; by right).
  destruct (orderbook_source_cases ob ins st e)
    as [[_ ->]|(ref & h & _ & _ & -> & H1 & H2)]; [done|].
  unfold prop_of. simpl.
  destruct (decide (l = e.1)) as [->|Hne].
  - rewrite H2. rewrite bool_decide_eq_false_2; [done|].
    apply Hnt. destruct e. left.
  - by rewrite H1.
Qed.

(** Without a ref for the instrument the whole call changes nothing. *)
Lemma orderbook_fold_no_ref ob ins entries st :
  JsMap.get (_id ins) (refs_orderbook st) = None →
  fold_left (orderbook_source ob ins) entries st = st.
Proof.
  intros Hget. induction entries as [|e entries IH]; [done|].
  simpl.
  destruct (orderbook_source_cases ob ins st e)
    as [[_ ->]|(ref & h & _ & Hsome & _)]; [done | congruence].
Qed.

Lemma EvCache_cases id (x : Event) : x = EvCache id ∨ x ≠ EvCache id.
Proof.
  destruct x as [| | |i| | | | |]; try (right; discriminate).
  destruct (decide (i = id)) as [->|Hne]; [by left | right; congruence].
Qed.

Lemma cache_first_tail id x evs :
  x ≠ EvCache id → cache_first id (x :: evs) → cache_first id evs.
Proof.
  intros Hx H pre w f post E.
  specialize (H (x :: pre) w f post). simpl in H. rewrite E in H.
  specialize (H eq_refl). apply elem_of_cons in H as [H|H]; [congruence | done].
Qed.

Lemma cache_first_app id evs1 evs2 :
  cache_first id evs1 → cache_first id evs2 → cache_first id (evs1 ++ evs2).
Proof.
  intros H1 H2. induction evs1 as [|x evs1 IH]; [done|].
  intros pre w f post E. destruct pre as [|y pre]; simpl in E.
  - inversion E; subst. specialize (H1 [] w f evs1 eq_refl).
    by apply elem_of_nil in H1.
  - inversion E; subst.
    destruct (EvCache_cases id y) as [->|Hy]; [left|].
    right. eapply (IH (cache_first_tail _ _ _ Hy H1)). done.
Qed.



Lemma JsMap_set_set {V : Type} k (v v' : V) m :
  JsMap.set k v' (JsMap.set k v m) = JsMap.set k v' m.
Proof.
  induction m as [|[k0 v0] m IH]; simpl.
  - by rewrite decide_True.
  - destruct (decide (k = k0)) as [->|Hne]; simpl.
    + by rewrite decide_True.
    + rewrite decide_False by done. by rewrite IH.
Qed.

Lemma router_event_writes src fs :
  forallb router_event (map (EvWrite src) fs) = true.
Proof. by induction fs. Qed.

(** The whole loop: nothing happens (no ref exists, or no widget with a
    record is bound to the instrument), or the ref of the instrument holds
    the message and the history added starts with the caching. *)
Lemma orderbook_fold_cases ob ins entries st :
  ((JsMap.get (_id ins) (refs_orderbook st) = None
    ∨ ∀ e, e ∈ entries → bound_to st e.1 ins = false)
   ∧ fold_left (orderbook_source ob ins) entries st = st)
  ∨ ∃ ref h evs,
      JsMap.get (_id ins) (refs_orderbook st) = Some ref
      ∧ forallb router_event evs = true
      ∧ fold_left (orderbook_source ob ins) entries st
        = routed h
            (JsMap.set (_id ins) (cache_orderbook ref ob) (refs_orderbook st))
            (EvCache (_id ins) :: evs) st.
Proof.
  revert st. induction entries as [|e entries IH]; intros st.
  { left. split; [right; by intros e ?%elem_of_nil | done]. }
  simpl.
  destruct (orderbook_source_cases ob ins st e)
    as [[Hu ->]|(ref & h & _ & Hget & E & _)].
  - destruct (IH st) as [[Hu' ->]|Hr]; [|by right].
    left. split; [|done].
    destruct Hu as [Hu|Hu]; [|by left]. destruct Hu' as [Hu'|Hu']; [by left|].
    right. intros e' [->|Hin]%elem_of_cons; [done | by apply Hu'].
  - right. exists ref. rewrite E.
    set (st1 := routed h _ _ st).
    destruct (IH st1) as [[_ ->]|(ref1 & h1 & evs1 & Hget1 & Hev1 & ->)].
    + exists h, (map (EvWrite e.1) (targets e.2)).
      split; [done|]. split; [apply router_event_writes | done].
    + unfold st1 in Hget1 |- *. simpl in Hget1.
      rewrite JsMap_get_set_eq in Hget1. injection Hget1 as <-.
      rewrite routed_routed. simpl. rewrite JsMap_set_set.
      exists h1, (map (EvWrite e.1) (targets e.2) ++ EvCache (_id ins) :: evs1).
      split; [done|]. split; [|done].
      rewrite forallb_app, router_event_writes. simpl. exact Hev1.
Qed.



(** C9. A routed book message for an instrument writes only into widgets
    bound to that instrument, and there only into the target fields of their
    order-book subscription records: every other widget, and every other
    property, is left as it was. A stream item whose figi is not in the
    instrument index changes nothing (the turn of the loop is the only thing
    the history records), and the router has no failing path. *)
Theorem book_message_updates_only_bound_entries ob ins st :
  (∀ l, bound_to st l ins = false →
        heap (onOrderbookMessage (Some ob) (Some ins) st) !! l = heap st !! l)
  ∧ (∀ l f, (∀ fields, (l, fields) ∈ subs_orderbook st → f ∉ targets fields) →
        prop_of (onOrderbookMessage (Some ob) (Some ins) st) l f = prop_of st l f)
  ∧ (∀ data, sd_orderbook data = Some ob → figis st !! ob_figi ob = None →
        stream_item data st = emit EvNext st).
Proof.
  split; [|split].
  - intros l Hl. simpl. by apply orderbook_fold_unbound.
  - intros l f Hnt. simpl. by apply orderbook_fold_untargeted.
  - intros data Hd Hf. unfold stream_item. rewrite Hd. simpl. by rewrite Hf.
Qed.


(** ** The stream controller *)

Lemma abort_controller_trace st :
  trace (abort_controller st) = trace st ++ abort_events st.
Proof.
  unfold abort_controller, abort_events.
  destruct (marketDataAbortController st); simpl; [done | by rewrite app_nil_r].
Qed.

Lemma abort_controller_not_live st : session_live (abort_controller st) = false.
Proof.
  unfold abort_controller, session_live.
  destruct (marketDataAbortController st) eqn:E; simpl; [done | by rewrite E].
Qed.

Lemma abort_controller_refs st :
  refs_orderbook (abort_controller st) = refs_orderbook st
  ∧ refs_allTrades (abort_controller st) = refs_allTrades st
  ∧ heap (abort_controller st) = heap st
  ∧ next_controller (abort_controller st) = next_controller st.
Proof. unfold abort_controller. by destruct (marketDataAbortController st). Qed.

Lemma emit_fold {A : Type} (g : A → Event) (l : list A) st :
  fold_left (fun st x => emit (g x) st) l st
  = routed (heap st) (refs_orderbook st) (map g l) st.
Proof.
  revert st. induction l as [|x l IH]; intros st; simpl.
  - by rewrite routed_id.
  - rewrite IH. unfold routed, emit. simpl. by rewrite <- app_assoc.
Qed.

Lemma request_snapshots_routed st :
  request_snapshots st
  = routed (heap st) (refs_orderbook st) (snapshot_calls st) st.
Proof. unfold request_snapshots, snapshot_calls. apply emit_fold. Qed.

(** With a ref present the call aborts the previous controller, installs a
    fresh one, opens the stream with the request built from the refs and, on
    a reconnect, issues the snapshot calls; the refs and the widgets stay. *)
Lemma resubscribe_begin_open reconnect st :
  refs_empty st = false →
  trace (resubscribe_begin reconnect st)
  = trace st ++ abort_events st
    ++ EvOpenStream (next_controller st) (buildRequest st)
       :: (if reconnect then snapshot_calls st else [])
  ∧ marketDataAbortController (resubscribe_begin reconnect st)
    = Some {| ac_id := next_controller st; aborted := false |}
  ∧ refs_orderbook (resubscribe_begin reconnect st) = refs_orderbook st
  ∧ refs_allTrades (resubscribe_begin reconnect st) = refs_allTrades st
  ∧ heap (resubscribe_begin reconnect st) = heap st.
Proof.
  intros Hne. unfold resubscribe_begin. rewrite Hne.
  destruct (abort_controller_refs st) as (Ho & Ht & Hh & Hn).
  destruct reconnect.
  - rewrite request_snapshots_routed. unfold snapshot_calls. simpl.
    rewrite abort_controller_trace, Ho, Ht, Hh, Hn.
    by rewrite <- !app_assoc.
  - simpl. rewrite abort_controller_trace, Ho, Ht, Hh, Hn.
    by rewrite <- !app_assoc.
Qed.


(** C5. With at least one active ref, the request sent on (re)subscribe has,
    for each kind with a ref, a subscribe section that lists the figi of
    every ref of that kind in the order of the ref map, each order-book entry
    with depth 50, and has no section for a kind without refs. *)
Theorem request_lists_current_refs reconnect st :
  refs_empty st = false →
  subscribeOrderBookRequest (buildRequest st)
  = match refs_orderbook st with
    | [] => None
    | _ =>
        Some {| sob_subscriptionAction := SUBSCRIPTION_ACTION_SUBSCRIBE;
                sob_instruments :=
                  map (fun r => {| obi_instrumentId := tinkoffFigi (instrument r);
                                   obi_depth := 50 |})
                      (JsMap.values (refs_orderbook st)) |}
    end
  ∧ subscribeTradesRequest (buildRequest st)
    = match refs_allTrades st with
      | [] => None
      | _ =>
          Some {| st_subscriptionAction := SUBSCRIPTION_ACTION_SUBSCRIBE;
                  st_instruments :=
                    map (fun r => {| ti_instrumentId := tinkoffFigi (instrument r) |})
                        (JsMap.values (refs_allTrades st)) |}
      end
  ∧ EvOpenStream (next_controller st) (buildRequest st)
    ∈ trace (resubscribe_begin reconnect st).
Proof.
  intros Hne. split; [|split].
  - unfold buildRequest. simpl. by destruct (refs_orderbook st).
  - unfold buildRequest. simpl. by destruct (refs_allTrades st).
  - destruct (resubscribe_begin_open reconnect st Hne) as (-> & _).
    rewrite !elem_of_app. right. right. left.
Qed.

(** ** No session without refs *)

Lemma refs_empty_iff st :
  refs_empty st = true ↔ refs_orderbook st = [] ∧ refs_allTrades st = [].
Proof.
  unfold refs_empty. rewrite andb_true_iff, !JsMap_size_zero. done.
Qed.

Lemma idle_inv_same st st' :
  refs_orderbook st' = refs_orderbook st →
  refs_allTrades st' = refs_allTrades st →
  marketDataAbortController st' = marketDataAbortController st →
  idle_inv st → idle_inv st'.
Proof.
  unfold idle_inv, refs_empty, session_live. intros -> -> ->. done.
Qed.

Lemma idle_inv_routed h r evs st :
  (r = refs_orderbook st ∨ r ≠ []) → idle_inv st → idle_inv (routed h r evs st).
Proof.
  intros [->|Hr] Hinv.
  - by apply (idle_inv_same st).
  - intros He. apply refs_empty_iff in He as [He _]. done.
Qed.

Lemma onOrderbookMessage_routed o i st :
  ∃ h r evs,
    onOrderbookMessage o i st = routed h r evs st
    ∧ (r = refs_orderbook st ∨ r ≠ [])
    ∧ forallb router_event evs = true.
Proof.
  destruct o as [ob|], i as [ins|]; simpl;
    try (exists (heap st), (refs_orderbook st), []; rewrite routed_id; by auto).
  destruct (orderbook_fold_cases ob ins (subs_orderbook st) st)
    as [[_ ->]|(ref & h & evs & _ & Hev & ->)].
  - exists (heap st), (refs_orderbook st), []. rewrite routed_id. by auto.
  - eexists h, _, _. split; [done|]. split; [|exact Hev].
    right. apply JsMap_set_not_empty.
Qed.

Lemma trade_fields_cons src ins t f fs st :
  trade_fields src ins t (f :: fs) st
  = trade_fields src ins t fs
      (if is_MARKET_PRINT (datum f)
       then write_field src (field f) (VPrint (trade_print ins t)) st else st).
Proof. unfold trade_fields. simpl. by destruct (datum f). Qed.

Lemma trade_fields_routed src ins t fs st :
  ∃ h evs,
    trade_fields src ins t fs st = routed h (refs_orderbook st) evs st
    ∧ forallb router_event evs = true.
Proof.
  revert st. induction fs as [|f fs IH]; intros st.
  - exists (heap st), []. by rewrite routed_id.
  - rewrite trade_fields_cons. destruct (is_MARKET_PRINT (datum f)); [|apply IH].
    destruct (IH (write_field src (field f) (VPrint (trade_print ins t)) st))
      as (h & evs & -> & Hev).
    exists h, (EvWrite src (field f) :: evs). split; [|done].
    unfold routed, write_field, emit, with_heap. simpl. by rewrite <- app_assoc.
Qed.

Lemma onTradeMessage_routed o i st :
  ∃ h evs,
    onTradeMessage o i st = routed h (refs_orderbook st) evs st
    ∧ forallb router_event evs = true.
Proof.
  destruct o as [t|], i as [ins|]; simpl;
    try (exists (heap st), []; by rewrite routed_id).
  generalize (subs_allTrades st) as entries.
  assert (Hgen : ∀ entries h0 evs0, forallb router_event evs0 = true →
            ∃ h evs,
              fold_left (trade_source t ins) entries
                (routed h0 (refs_orderbook st) evs0 st)
              = routed h (refs_orderbook st) evs st
              ∧ forallb router_event evs = true).
  { induction entries as [|e entries IH]; intros h0 evs0 H0; simpl.
    - by exists h0, evs0.
    - unfold trade_source at 2.
      destruct (source_instrument _ e.1) as [si|]; [|by apply IH].
      destruct (decide (_id si = _id ins)); [|by apply IH].
      destruct (trade_fields_routed e.1 ins t e.2
                  (routed h0 (refs_orderbook st) evs0 st)) as (h & evs & -> & Hev).
      simpl. rewrite routed_routed. apply IH.
      rewrite forallb_app. by rewrite H0, Hev. }
  intros entries. destruct (Hgen entries (heap st) [] eq_refl) as (h & evs & E & Hev).
  rewrite routed_id in E. by exists h, evs.
Qed.

Lemma stream_item_routed data st :
  ∃ h r evs,
    stream_item data st = routed h r (EvNext :: evs) st
    ∧ (r = refs_orderbook st ∨ r ≠ [])
    ∧ forallb router_event evs = true.
Proof.
  unfold stream_item.
  assert (E : emit EvNext st = routed (heap st) (refs_orderbook st) [EvNext] st)
    by done.
  destruct (sd_orderbook data) as [ob|].
  - destruct (onOrderbookMessage_routed (Some ob)
                (figis (emit EvNext st) !! ob_figi ob) (emit EvNext st))
      as (h & r & evs & -> & Hr & Hev).
    rewrite E, routed_routed. by exists h, r, evs.
  - destruct (sd_trade data) as [t|].
    + destruct (onTradeMessage_routed (Some t)
                  (figis (emit EvNext st) !! tr_figi t) (emit EvNext st))
        as (h & evs & -> & Hev).
      rewrite E, routed_routed. exists h, (refs_orderbook st), evs. by auto.
    + rewrite E. exists (heap st), (refs_orderbook st), []. by auto.
Qed.

Lemma resubscribe_begin_idle reconnect st :
  idle_inv st → idle_inv (resubscribe_begin reconnect st).
Proof.
  intros Hinv. destruct (refs_empty st) eqn:He.
  - unfold resubscribe_begin. by rewrite He.
  - destruct (resubscribe_begin_open reconnect st He) as (_ & _ & Ho & Ht & _).
    intros He'. unfold refs_empty in He, He'. rewrite Ho, Ht in He'. congruence.
Qed.

Lemma removeLastRef_idle ins refs st : idle_inv (removeLastRef ins refs st).1.
Proof.
  unfold removeLastRef. simpl.
  match goal with |- idle_inv (if refs_empty ?s then _ else _) =>
    destruct (refs_empty s) eqn:He end.
  - intros _. apply abort_controller_not_live.
  - intros He'. congruence.
Qed.

Lemma addFirstRef_begin_idle ins refs st :
  idle_inv st → idle_inv (addFirstRef_begin ins refs st).
Proof.
  intros Hinv. destruct refs.
  - intros He. apply refs_empty_iff in He as [He _]. simpl in He.
    by apply JsMap_set_not_empty in He.
  - intros He. apply refs_empty_iff in He as [_ He]. simpl in He.
    by apply JsMap_set_not_empty in He.
  - by apply (idle_inv_same st).
Qed.

(** Every step keeps the invariant. *)
Lemma perform_idle st a : idle_inv st → idle_inv (perform st a).
Proof.
  intros Hinv.
  destruct a as [ins refs|ins refs response|ins refs| |ins orderbook|data|fin
                |i|dt|newValue|so stt w]; unfold perform.
  - by apply addFirstRef_begin_idle.
  - unfold addFirstRef_resume.
    destruct refs; [destruct response as [e|ob]|..]; try done.
    destruct (onOrderbookMessage_routed (Some ob) (Some ins) st)
      as (h & r & evs & -> & Hr & _).
    apply (idle_inv_same (routed h r evs st)); [done..|].
    by apply idle_inv_routed.
  - apply removeLastRef_idle.
  - unfold debounce_fire. destruct (pending st) as [[r due]|]; [|done].
    destruct (due <=? clock st); [|done].
    apply resubscribe_begin_idle. by apply (idle_inv_same st).
  - unfold snapshot_arrived.
    destruct (onOrderbookMessage_routed (Some orderbook) (Some ins) st)
      as (h & r & evs & -> & Hr & _).
    by apply idle_inv_routed.
  - destruct (stream_item_routed data st) as (h & r & evs & -> & Hr & _).
    by apply idle_inv_routed.
  - destruct fin as [|e]; simpl; [by apply (idle_inv_same st)|].
    destruct (isAbortError e); [done | by apply (idle_inv_same st)].
  - unfold timer_fire. destruct (timers st !! i) as [due|]; [|done].
    destruct (due <=? clock st); [by apply (idle_inv_same st) | done].
  - by apply (idle_inv_same st).
  - unfold instrumentChanged. destruct newValue as [i|]; [|done].
    destruct (decide (_id i = "")); [done|].
    destruct (onOrderbookMessage_routed
                (JsMap.get (_id i) (refs_orderbook st) ≫= lastOrderbookData)
                (Some i) st) as (h & r & evs & -> & Hr & _).
    by apply idle_inv_routed.
  - by apply (idle_inv_same st).
Qed.

Lemma run_idle actions st : idle_inv st → idle_inv (run actions st).
Proof.
  revert st. induction actions as [|a actions IH]; intros st Hinv; [done|].
  simpl. apply IH. by apply perform_idle.
Qed.

(** C2. In every state the trader reaches from its construction, empty ref
    maps mean that no session is live. In particular a removal that leaves
    both ref maps empty aborts the current controller, and a resubscribe with
    both ref maps empty returns at once: it opens no stream and changes
    nothing. *)
Theorem no_refs_no_session timeout actions st ins refs reconnect session :
  (refs_empty (run actions (initial timeout)) = true →
     session_live (run actions (initial timeout)) = false)
  ∧ (refs_empty (removeLastRef ins refs st).1 = true →
       session_live (removeLastRef ins refs st).1 = false
       ∧ trace (removeLastRef ins refs st).1 = trace st ++ abort_events st)
  ∧ (refs_empty st = true →
       resubscribe_begin reconnect st = st
       ∧ priv_resubscribeToMarketData reconnect session st = st).
Proof.
  split; [|split].
  - apply run_idle. intros _. done.
  - intros He. split; [by apply removeLastRef_idle|].
    revert He. unfold removeLastRef. simpl.
    match goal with |- refs_empty (if refs_empty ?s then _ else _) = true → _ =>
      destruct (refs_empty s) eqn:He' end; [|congruence].
    intros _. rewrite abort_controller_trace.
    by destruct refs.
  - intros He. unfold resubscribe_begin, priv_resubscribeToMarketData.
    by rewrite He.
Qed.

(** ** Adding the first ref *)

(** A widget that is bound to the instrument and has a record in
    [subs.orderbook] gets the projected book in every target of the record,
    when a ref exists. The widgets are the keys of a [Map], so no widget has
    two records. *)
Lemma orderbook_fold_seeds ob ins entries st l fields f :
  NoDup entries.*1 →
  (l, fields) ∈ entries →
  bound_to st l ins = true →
  is_Some (JsMap.get (_id ins) (refs_orderbook st)) →
  f ∈ targets fields →
  prop_of (fold_left (orderbook_source ob ins) entries st) l f
  = Some (VBook (book_view ob)).
Proof.
  revert st. induction entries as [|e entries IH]; intros st Hnd Hin Hb Href Hf.
  - by apply elem_of_nil in Hin.
  - simpl. rewrite fmap_cons in Hnd. apply NoDup_cons in Hnd as [Hfresh Hnd].
    apply elem_of_cons in Hin as [<-|Hin].
    + rewrite orderbook_fold_untargeted.
      * destruct (orderbook_source_cases ob ins st (l, fields))
          as [[[Hu|Hu] _]|(ref & h & _ & _ & -> & _ & H2)]; simpl in *.
        -- congruence.
        -- rewrite Hu in Href. by destruct Href.
        -- unfold prop_of. simpl. rewrite H2. by rewrite bool_decide_eq_true_2.
      * intros fields' Hin'. exfalso. apply Hfresh.
        apply list_elem_of_fmap. by exists (l, fields').
    + assert (Hne : l ≠ e.1).
      { intros ->. apply Hfresh. apply list_elem_of_fmap. by exists (e.1, fields). }
      apply IH; try done.
      * destruct (orderbook_source_cases ob ins st e)
          as [[_ ->]|(ref & h & _ & _ & -> & H1 & _)]; [done|].
        rewrite <- Hb. apply bound_to_heap. simpl. by apply H1.
      * destruct (orderbook_source_cases ob ins st e)
          as [[_ ->]|(ref & h & _ & _ & -> & _ & _)]; [done|].
        simpl. rewrite JsMap_get_set_eq. by eexists.
Qed.

Lemma with_refs_get refs k v st :
  JsMap.get k (refs_of refs (with_refs refs (JsMap.set k v (refs_of refs st)) st))
  = Some v.
Proof. destruct refs; simpl; apply JsMap_get_set_eq. Qed.


(** ** Removing a ref that does not exist *)

Lemma with_refs_same refs st : with_refs refs (refs_of refs st) st = st.
Proof. by destruct st, refs. Qed.

(** C3, as the code has it. [removeLastRef] on a pair without a ref raises
    nothing: it completes normally and leaves the ref maps, the index and the
    widgets as they were; when both ref maps are empty it aborts the current
    controller, as after any removal. *)
Theorem removeLastRef_without_ref_is_silent ins refs st :
  JsMap.get (_id ins) (refs_of refs st) = None →
  removeLastRef ins refs st
  = (if refs_empty st then abort_controller st else st, Normal).
Proof.
  intros Hget. unfold removeLastRef.
  destruct refs; simpl in Hget; rewrite ?(JsMap_delete_absent _ _ Hget).
  - by rewrite (with_refs_same OrderbookRefs).
  - by rewrite (with_refs_same AllTradesRefs).
  - done.
Qed.

(** ** Trade history *)

Lemma slice_most_recent {A : Type} (depth : Z) (l : list A) :
  1 ≤ depth → slice (- depth) l = most_recent (Z.to_nat depth) l.
Proof.
  intros Hd. unfold slice, most_recent.
  destruct (- depth <? 0) eqn:Hneg; [|apply Z.ltb_ge in Hneg; lia].
  f_equal. lia.
Qed.

(** C8, as the code has it. For a present instrument and a depth of at least
    one, [allTrades] returns the newest [min depth n] of the [n] trades the
    call answered with, newest first - the first [depth] elements of the
    answer read backwards - each as the record [trade_print] builds: the
    identifier made of symbol, direction, price, quantity and timestamp, the
    side, the ISO time, the epoch milliseconds, the symbol, the price and the
    volume. Without an instrument it returns the empty list. *)
Theorem allTrades_newest_first ins depth trades response :
  1 ≤ depth →
  allTrades (Some ins) depth (inr trades)
  = inr (map (trade_print ins) (take (Z.to_nat depth) (rev trades)))
  ∧ length (take (Z.to_nat depth) (rev trades))
    = Z.to_nat (Z.min depth (Z.of_nat (length trades)))
  ∧ (∀ t,
       trade_print ins t
       = {| orderId :=
              symbol ins +:+ "|" +:+ pretty (tr_direction t)
              +:+ "|" +:+ price_text (toNumber (tr_price t))
              +:+ "|" +:+ pretty (tr_quantity t) +:+ "|" +:+ pretty (tr_time t);
            side := trade_side (tr_direction t);
            time := Date_toISOString (tr_time t);
            timestamp := tr_time t;
            pv_symbol := symbol ins;
            pv_price := toNumber (tr_price t);
            volume := tr_quantity t |})
  ∧ allTrades None depth response = inr [].
Proof.
  intros Hd. split; [|split; [|split]]; try done.
  - unfold allTrades. rewrite slice_most_recent by done.
    unfold most_recent. by rewrite firstn_rev.
  - rewrite length_take, length_rev. lia.
Qed.

(** ** Reconnecting *)










(** ** What messages leave alone *)

Lemma registry_shape_cache k ref ob m :
  JsMap.get k m = Some ref →
  registry_shape (JsMap.set k (cache_orderbook ref ob) m) = registry_shape m.
Proof.
  induction m as [|[k0 r0] m IH]; simpl; [done|].
  destruct (decide (k = k0)) as [->|Hne]; simpl.
  - by intros [= ->].
  - intros H. by rewrite IH.
Qed.

Lemma registry_shape_values m m' :
  registry_shape m' = registry_shape m →
  map instrument (JsMap.values m') = map instrument (JsMap.values m).
Proof.
  intros H. apply (f_equal (map snd)) in H.
  unfold registry_shape, JsMap.values in *. rewrite !map_map in *. exact H.
Qed.

Lemma buildRequest_shape st st' :
  registry_shape (refs_orderbook st') = registry_shape (refs_orderbook st) →
  refs_allTrades st' = refs_allTrades st →
  buildRequest st' = buildRequest st.
Proof.
  intros Ho Ht. unfold buildRequest. rewrite Ht.
  pose proof (registry_shape_values _ _ Ho) as Hv.
  assert (Hl : length (JsMap.values (refs_orderbook st'))
               = length (JsMap.values (refs_orderbook st))).
  { apply (f_equal length) in Hv. by rewrite !length_map in Hv. }
  rewrite Hl.
  assert (Hm : ∀ m : list (string * Ref),
            map (fun r => {| obi_instrumentId := tinkoffFigi (instrument r);
                             obi_depth := 50 |}) (JsMap.values m)
            = map (fun i => {| obi_instrumentId := tinkoffFigi i; obi_depth := 50 |})
                (map instrument (JsMap.values m))).
  { intros m. by rewrite map_map. }
  by rewrite !Hm, Hv.
Qed.

Lemma onOrderbookMessage_shape o i st :
  registry_shape (refs_orderbook (onOrderbookMessage o i st))
  = registry_shape (refs_orderbook st).
Proof.
  destruct o as [ob|], i as [ins|]; simpl; try done.
  destruct (orderbook_fold_cases ob ins (subs_orderbook st) st)
    as [[_ ->]|(ref & h & evs & Hget & _ & ->)]; [done|].
  simpl. by apply registry_shape_cache.
Qed.

Lemma onOrderbookMessage_request o i st :
  buildRequest (onOrderbookMessage o i st) = buildRequest st.
Proof.
  apply buildRequest_shape; [apply onOrderbookMessage_shape|].
  by destruct (onOrderbookMessage_routed o i st) as (h & r & evs & -> & _).
Qed.

Lemma stream_item_shape data st :
  registry_shape (refs_orderbook (stream_item data st))
  = registry_shape (refs_orderbook st)
  ∧ refs_allTrades (stream_item data st) = refs_allTrades st.
Proof.
  split.
  - unfold stream_item. destruct (sd_orderbook data) as [ob|].
    + by rewrite onOrderbookMessage_shape.
    + destruct (sd_trade data) as [t|]; [|done].
      by destruct (onTradeMessage_routed (Some t)
                     (figis (emit EvNext st) !! tr_figi t) (emit EvNext st))
        as (h & evs & -> & _).
  - by destruct (stream_item_routed data st) as (h & r & evs & -> & _).
Qed.

(** X1. Routing never changes what is subscribed: a book message, a stream
    item and an instrument change leave the keys of the order-book ref map,
    their order, the counts and the instruments as they were (only cached
    books change), do not touch the trade refs, and so leave the request a
    resubscribe would send as it was. *)
Theorem messages_keep_the_request o i data newValue st :
  registry_shape (refs_orderbook (onOrderbookMessage o i st))
  = registry_shape (refs_orderbook st)
  ∧ buildRequest (onOrderbookMessage o i st) = buildRequest st
  ∧ registry_shape (refs_orderbook (stream_item data st))
    = registry_shape (refs_orderbook st)
  ∧ refs_allTrades (stream_item data st) = refs_allTrades st
  ∧ buildRequest (stream_item data st) = buildRequest st
  ∧ buildRequest (instrumentChanged newValue st) = buildRequest st.
Proof.
  destruct (stream_item_shape data st) as (Hs & Ht).
  split; [apply onOrderbookMessage_shape|].
  split; [apply onOrderbookMessage_request|].
  split; [exact Hs|]. split; [exact Ht|].
  split; [by apply buildRequest_shape|].
  destruct newValue as [ins|]; [|done]. unfold instrumentChanged.
  destruct (decide (_id ins = "")); [done | apply onOrderbookMessage_request].
Qed.

(** ** The registry beyond the first ref *)

Lemma JsMap_set_absent {V : Type} k (v : V) m :
  JsMap.get k m = None → JsMap.set k v m = m ++ [(k, v)].
Proof.
  induction m as [|[k0 v0] m IH]; simpl; [done|].
  destruct (decide (k = k0)); [done|]. intros H. by rewrite IH.
Qed.

Lemma JsMap_delete_set {V : Type} k (v : V) m :
  JsMap.get k m = None → JsMap.delete k (JsMap.set k v m) = m.
Proof.
  induction m as [|[k0 v0] m IH]; simpl.
  - by rewrite decide_True.
  - destruct (decide (k = k0)) as [->|Hne]; [done|]. simpl.
    rewrite decide_False by done. intros H. by rewrite IH.
Qed.

Lemma JsMap_get_values {V : Type} k (v : V) m :
  JsMap.get k m = Some v → v ∈ JsMap.values m.
Proof.
  induction m as [|[k0 v0] m IH]; simpl; [done|].
  destruct (decide (k = k0)).
  - intros [= ->]. left.
  - intros H. right. by apply IH.
Qed.

(** The order-book refs after the whole of [addFirstRef] are those it had
    at its suspension, up to cached books. *)
Lemma addFirstRef_shape ins refs response st :
  registry_shape (refs_orderbook (addFirstRef ins refs response st).1)
  = registry_shape (refs_orderbook (addFirstRef_begin ins refs st))
  ∧ refs_allTrades (addFirstRef ins refs response st).1
    = refs_allTrades (addFirstRef_begin ins refs st)
  ∧ figis (addFirstRef ins refs response st).1
    = figis (addFirstRef_begin ins refs st).
Proof.
  unfold addFirstRef, addFirstRef_resume.
  destruct refs; [destruct response as [e|ob]|..]; try done.
  cbn [fst]. split; [apply onOrderbookMessage_shape|].
  by destruct (onOrderbookMessage_routed (Some ob) (Some ins)
                 (addFirstRef_begin ins OrderbookRefs st))
    as (h & r & evs & -> & _).
Qed.

(** X2. When the snapshot call of [addFirstRef] fails, the error is the
    outcome of the call and nothing after the call runs: no widget is
    written and no resubscribe is requested. What ran before stays: the ref
    with count 1 and the index entry. The instrument is therefore part of
    the request of the next resubscribe, whoever asks for it. *)
Theorem addFirstRef_failed_snapshot ins e st :
  (addFirstRef ins OrderbookRefs (inl e) st).2 = Thrown e
  ∧ JsMap.get (_id ins)
      (refs_orderbook (addFirstRef ins OrderbookRefs (inl e) st).1)
    = Some (first_ref ins)
  ∧ figis (addFirstRef ins OrderbookRefs (inl e) st).1 !! tinkoffFigi ins = Some ins
  ∧ trace (addFirstRef ins OrderbookRefs (inl e) st).1
    = trace st ++ [EvGetOrderBook (tinkoffFigi ins) 50]
  ∧ pending (addFirstRef ins OrderbookRefs (inl e) st).1 = pending st
  ∧ heap (addFirstRef ins OrderbookRefs (inl e) st).1 = heap st
  ∧ ∀ reconnect, ∃ section,
      subscribeOrderBookRequest
        (buildRequest (addFirstRef ins OrderbookRefs (inl e) st).1) = Some section
      ∧ {| obi_instrumentId := tinkoffFigi ins; obi_depth := 50 |}
        ∈ sob_instruments section
      ∧ EvOpenStream (next_controller st)
          (buildRequest (addFirstRef ins OrderbookRefs (inl e) st).1)
        ∈ trace (resubscribe_begin reconnect
                   (addFirstRef ins OrderbookRefs (inl e) st).1).
Proof.
  split; [done|]. split; [apply JsMap_get_set_eq|].
  split; [apply lookup_insert_eq|]. split; [done|]. split; [done|].
  split; [done|]. intros reconnect.
  set (st1 := (addFirstRef ins OrderbookRefs (inl e) st).1).
  assert (Hget : JsMap.get (_id ins) (refs_orderbook st1) = Some (first_ref ins))
    by apply JsMap_get_set_eq.
  assert (Hne : refs_empty st1 = false).
  { destruct (refs_empty st1) eqn:He; [|done].
    apply refs_empty_iff in He as [He _]. by rewrite He in Hget. }
  destruct (resubscribe_begin_open reconnect st1 Hne) as (Htr & _).
  apply JsMap_get_values in Hget.
  exists {| sob_subscriptionAction := SUBSCRIPTION_ACTION_SUBSCRIBE;
            sob_instruments :=
              map (fun r => {| obi_instrumentId := tinkoffFigi (instrument r);
                               obi_depth := 50 |})
                  (JsMap.values (refs_orderbook st1)) |}.
  split; [|split].
  - unfold buildRequest. cbn [subscribeOrderBookRequest].
    destruct (JsMap.values (refs_orderbook st1)) eqn:Hm; [|reflexivity].
    by apply elem_of_nil in Hget.
  - cbn [sob_instruments]. apply list_elem_of_fmap. by exists (first_ref ins).
  - rewrite Htr, !elem_of_app. right. right. left.
Qed.

(** X3. A ref for an instrument that had none goes to the end of its ref
    map, so in the request a resubscribe sends afterwards the instruments
    subscribed before keep their order and the new one comes last, whatever
    the snapshot call answered; the section of the other kind is as it
    was. *)
Theorem addFirstRef_appends_to_the_request ins response st :
  (JsMap.get (_id ins) (refs_orderbook st) = None →
     refs_orderbook (addFirstRef_begin ins OrderbookRefs st)
     = refs_orderbook st ++ [(_id ins, first_ref ins)]
     ∧ subscribeOrderBookRequest
         (buildRequest (addFirstRef ins OrderbookRefs response st).1)
       = Some {| sob_subscriptionAction := SUBSCRIPTION_ACTION_SUBSCRIBE;
                 sob_instruments :=
                   map (fun r => {| obi_instrumentId := tinkoffFigi (instrument r);
                                    obi_depth := 50 |})
                       (JsMap.values (refs_orderbook st))
                   ++ [ {| obi_instrumentId := tinkoffFigi ins; obi_depth := 50 |} ] |}
     ∧ subscribeTradesRequest
         (buildRequest (addFirstRef ins OrderbookRefs response st).1)
       = subscribeTradesRequest (buildRequest st))
  ∧ (JsMap.get (_id ins) (refs_allTrades st) = None →
       refs_allTrades (addFirstRef_begin ins AllTradesRefs st)
       = refs_allTrades st ++ [(_id ins, first_ref ins)]
       ∧ subscribeTradesRequest
           (buildRequest (addFirstRef ins AllTradesRefs response st).1)
         = Some {| st_subscriptionAction := SUBSCRIPTION_ACTION_SUBSCRIBE;
                   st_instruments :=
                     map (fun r => {| ti_instrumentId := tinkoffFigi (instrument r) |})
                         (JsMap.values (refs_allTrades st))
                     ++ [ {| ti_instrumentId := tinkoffFigi ins |} ] |}
       ∧ subscribeOrderBookRequest
           (buildRequest (addFirstRef ins AllTradesRefs response st).1)
         = subscribeOrderBookRequest (buildRequest st)).
Proof.
  split; intros Hget.
  - assert (Hb : refs_orderbook (addFirstRef_begin ins OrderbookRefs st)
                 = refs_orderbook st ++ [(_id ins, first_ref ins)])
      by (simpl; by apply JsMap_set_absent).
    split; [exact Hb|].
    destruct (addFirstRef_shape ins OrderbookRefs response st) as (Hs & Ht & _).
    rewrite (buildRequest_shape _ _ Hs Ht).
    unfold buildRequest. cbn [subscribeOrderBookRequest subscribeTradesRequest].
    rewrite Hb. unfold JsMap.values. rewrite !map_app, length_app. simpl.
    split; [|done].
    by replace (0 <? length (map snd (refs_orderbook st)) + 1)%nat with true
      by (symmetry; apply Nat.ltb_lt; lia).
  - assert (Hb : refs_allTrades (addFirstRef_begin ins AllTradesRefs st)
                 = refs_allTrades st ++ [(_id ins, first_ref ins)])
      by (simpl; by apply JsMap_set_absent).
    split; [exact Hb|].
    destruct (addFirstRef_shape ins AllTradesRefs response st) as (Hs & Ht & _).
    rewrite (buildRequest_shape _ _ Hs Ht).
    unfold buildRequest. cbn [subscribeOrderBookRequest subscribeTradesRequest].
    rewrite Hb. unfold JsMap.values. rewrite !map_app, length_app. simpl.
    split; [|done].
    by replace (0 <? length (map snd (refs_allTrades st)) + 1)%nat with true
      by (symmetry; apply Nat.ltb_lt; lia).
Qed.

(** X4. [addFirstRef] up to its suspension touches one key of one ref map
    and one key of the index. Every other ref of that map, the two other
    maps, every other index entry, the widgets, the controller and the
    pending request stay. A ref that was there already keeps its place in
    the map but is replaced by a fresh one: count 1 and no cached book. *)
Theorem addFirstRef_touches_one_key ins refs st :
  (∀ k, k ≠ _id ins →
        JsMap.get k (refs_of refs (addFirstRef_begin ins refs st))
        = JsMap.get k (refs_of refs st))
  ∧ (∀ other, other ≠ refs →
        refs_of other (addFirstRef_begin ins refs st) = refs_of other st)
  ∧ (∀ f, f ≠ tinkoffFigi ins →
        figis (addFirstRef_begin ins refs st) !! f = figis st !! f)
  ∧ heap (addFirstRef_begin ins refs st) = heap st
  ∧ marketDataAbortController (addFirstRef_begin ins refs st)
    = marketDataAbortController st
  ∧ pending (addFirstRef_begin ins refs st) = pending st
  ∧ (is_Some (JsMap.get (_id ins) (refs_of refs st)) →
       map fst (refs_of refs (addFirstRef_begin ins refs st))
       = map fst (refs_of refs st))
  ∧ ∃ r, JsMap.get (_id ins) (refs_of refs (addFirstRef_begin ins refs st)) = Some r
         ∧ refCount r = 1 ∧ instrument r = ins ∧ lastOrderbookData r = None.
Proof.
  split; [|split; [|split; [|split; [|split; [|split; [|split]]]]]].
  - intros k Hk. destruct refs; simpl; by apply JsMap_get_set_ne.
  - intros other Ho. by destruct refs, other.
  - intros f Hf. destruct refs; simpl; by apply lookup_insert_ne.
  - by destruct refs.
  - by destruct refs.
  - by destruct refs.
  - intros Hs. destruct refs; simpl in *; by apply JsMap_set_present_keys.
  - exists (first_ref ins). split; [|done].
    destruct refs; simpl; apply JsMap_get_set_eq.
Qed.

(** X5. Adding the first ref of an instrument and removing it again gives
    back the trader's two ref maps as they were, whatever the snapshot call
    answered in between; the index keeps the entry of the instrument, since
    [removeLastRef] never touches the index. With a map that is not one of
    the trader's two, [removeLastRef] deletes nothing and the ref stays. *)
Theorem addFirstRef_then_removeLastRef ins refs response st :
  JsMap.get (_id ins) (refs_of refs st) = None →
  figis (removeLastRef ins refs (addFirstRef ins refs response st).1).1
    !! tinkoffFigi ins = Some ins
  ∧ (refs ≠ ForeignRefs →
       refs_orderbook (removeLastRef ins refs (addFirstRef ins refs response st).1).1
       = refs_orderbook st
       ∧ refs_allTrades (removeLastRef ins refs (addFirstRef ins refs response st).1).1
         = refs_allTrades st)
  ∧ (refs = ForeignRefs →
       JsMap.get (_id ins)
         (refs_foreign (removeLastRef ins refs (addFirstRef ins refs response st).1).1)
       = Some (first_ref ins)).
Proof.
  intros Hget.
  assert (Hrm : ∀ s, figis (removeLastRef ins refs s).1 = figis s
                     ∧ refs_foreign (removeLastRef ins refs s).1 = refs_foreign s).
  { intros s. unfold removeLastRef. cbn [fst].
    match goal with |- context [if refs_empty ?x then _ else _] =>
      destruct (refs_empty x) end;
      unfold abort_controller; destruct refs;
      try destruct (marketDataAbortController _); done. }
  destruct (addFirstRef_shape ins refs response st) as (Hs & Ht & Hf).
  split; [|split].
  - rewrite (proj1 (Hrm _)), Hf. destruct refs; apply lookup_insert_eq.
  - intros Hown.
    assert (Hrefs : ∀ s, refs_orderbook (removeLastRef ins refs s).1
                         = match refs with
                           | OrderbookRefs => JsMap.delete (_id ins) (refs_orderbook s)
                           | _ => refs_orderbook s
                           end
                       ∧ refs_allTrades (removeLastRef ins refs s).1
                         = match refs with
                           | AllTradesRefs => JsMap.delete (_id ins) (refs_allTrades s)
                           | _ => refs_allTrades s
                           end).
    { intros s. unfold removeLastRef. cbn [fst].
      match goal with |- context [if refs_empty ?x then _ else _] =>
        destruct (refs_empty x) end;
        unfold abort_controller; destruct refs;
        try destruct (marketDataAbortController _); done. }
    destruct (Hrefs (addFirstRef ins refs response st).1) as (-> & ->).
    rewrite Ht. destruct refs; [| |done].
    + split; [|done].
      unfold addFirstRef, addFirstRef_resume.
      destruct response as [e|ob]; cbn [fst].
      * simpl. by apply JsMap_delete_set.
      * simpl.
        destruct (orderbook_fold_cases ob ins
                    (subs_orderbook (addFirstRef_begin ins OrderbookRefs st))
                    (addFirstRef_begin ins OrderbookRefs st))
          as [[_ E]|(ref & h & evs & _ & _ & E)]; simpl in E; rewrite E; simpl.
        -- by apply JsMap_delete_set.
        -- rewrite JsMap_set_set. by apply JsMap_delete_set.
    + split; [done|].
      simpl. by apply JsMap_delete_set.
  - intros ->. rewrite (proj2 (Hrm _)). simpl. apply JsMap_get_set_eq.
Qed.

(** X6. [removeLastRef] that leaves a ref behind only deletes: the history,
    the controller, the pending request, the index and the widgets are as
    before, so nothing tells the stream; in the trader's own map the key is
    gone and every other key is as it was. *)
Theorem removeLastRef_keeps_the_stream ins refs st :
  refs_empty (removeLastRef ins refs st).1 = false →
  trace (removeLastRef ins refs st).1 = trace st
  ∧ marketDataAbortController (removeLastRef ins refs st).1
    = marketDataAbortController st
  ∧ pending (removeLastRef ins refs st).1 = pending st
  ∧ figis (removeLastRef ins refs st).1 = figis st
  ∧ heap (removeLastRef ins refs st).1 = heap st
  ∧ (∀ k, k ≠ _id ins →
          JsMap.get k (refs_of refs (removeLastRef ins refs st).1)
          = JsMap.get k (refs_of refs st))
  ∧ (∀ other, other ≠ refs →
          refs_of other (removeLastRef ins refs st).1 = refs_of other st)
  ∧ (refs ≠ ForeignRefs →
       JsMap.get (_id ins) (refs_of refs (removeLastRef ins refs st).1) = None).
Proof.
  unfold removeLastRef. cbn [fst].
  match goal with |- context [if refs_empty ?x then _ else _] =>
    set (st2 := x) end.
  destruct (refs_empty st2) eqn:He.
  { unfold refs_empty in *. destruct (abort_controller_refs st2) as (-> & -> & _).
    congruence. }
  unfold st2.
  intros _.
  split; [by destruct refs|]. split; [by destruct refs|].
  split; [by destruct refs|]. split; [by destruct refs|].
  split; [by destruct refs|].
  split; [|split].
  - intros k Hk. destruct refs; simpl; try done; by apply JsMap_get_delete_ne.
  - intros other Ho. by destruct refs, other.
  - intros Hown. destruct refs; simpl; try done; apply JsMap_get_delete_eq.
Qed.

(** ** The instrument index *)

Lemma resubscribe_begin_registry reconnect st :
  refs_orderbook (resubscribe_begin reconnect st) = refs_orderbook st
  ∧ refs_allTrades (resubscribe_begin reconnect st) = refs_allTrades st
  ∧ figis (resubscribe_begin reconnect st) = figis st.
Proof.
  unfold resubscribe_begin. destruct (refs_empty st); [done|].
  destruct reconnect.
  - rewrite request_snapshots_routed. simpl. unfold abort_controller.
    by destruct (marketDataAbortController st).
  - simpl. unfold abort_controller. by destruct (marketDataAbortController st).
Qed.

Lemma removeLastRef_registry ins refs st :
  refs_orderbook (removeLastRef ins refs st).1
  = match refs with
    | OrderbookRefs => JsMap.delete (_id ins) (refs_orderbook st)
    | _ => refs_orderbook st
    end
  ∧ refs_allTrades (removeLastRef ins refs st).1
    = match refs with
      | AllTradesRefs => JsMap.delete (_id ins) (refs_allTrades st)
      | _ => refs_allTrades st
      end
  ∧ figis (removeLastRef ins refs st).1 = figis st.
Proof.
  unfold removeLastRef. cbn [fst].
  match goal with |- context [if refs_empty ?x then _ else _] =>
    destruct (refs_empty x) end;
    unfold abort_controller; destruct refs;
    try destruct (marketDataAbortController _); done.
Qed.

(** What one step does to the registry: [addFirstRef] up to its suspension
    adds, [removeLastRef] deletes, and every other step leaves the refs as
    they are up to cached books, and the index as it is. *)
Lemma perform_registry st a :
  match a with
  | AddFirstRefBegin ins refs => perform st a = addFirstRef_begin ins refs st
  | RemoveLastRef ins refs =>
      refs_orderbook (perform st a)
      = match refs with
        | OrderbookRefs => JsMap.delete (_id ins) (refs_orderbook st)
        | _ => refs_orderbook st
        end
      ∧ refs_allTrades (perform st a)
        = match refs with
          | AllTradesRefs => JsMap.delete (_id ins) (refs_allTrades st)
          | _ => refs_allTrades st
          end
      ∧ figis (perform st a) = figis st
  | _ =>
      registry_shape (refs_orderbook (perform st a))
      = registry_shape (refs_orderbook st)
      ∧ refs_allTrades (perform st a) = refs_allTrades st
      ∧ figis (perform st a) = figis st
  end.
Proof.
  destruct a as [ins refs|ins refs response|ins refs| |ins orderbook|data|fin
                |i|dt|newValue|so stt w]; unfold perform; try done.
  - unfold addFirstRef_resume.
    destruct refs; [destruct response as [e|ob]|..]; try done.
    cbn [fst]. split; [apply onOrderbookMessage_shape|].
    by destruct (onOrderbookMessage_routed (Some ob) (Some ins) st)
      as (h & r & evs & -> & _).
  - apply removeLastRef_registry.
  - unfold debounce_fire. destruct (pending st) as [[r due]|]; [|done].
    destruct (due <=? clock st); [|done].
    by destruct (resubscribe_begin_registry r (with_pending None st))
      as (-> & -> & ->).
  - unfold snapshot_arrived. split; [apply onOrderbookMessage_shape|].
    by destruct (onOrderbookMessage_routed (Some orderbook) (Some ins) st)
      as (h & r & evs & -> & _).
  - destruct (stream_item_shape data st) as (H1 & H2).
    split; [exact H1|]. split; [exact H2|].
    by destruct (stream_item_routed data st) as (h & r & evs & -> & _).
  - destruct fin as [|e]; simpl; [done|]. by destruct (isAbortError e).
  - unfold timer_fire. destruct (timers st !! i) as [due|]; [|done].
    by destruct (due <=? clock st).
  - unfold instrumentChanged. destruct newValue as [i|]; [|done].
    destruct (decide (_id i = "")); [done|].
    split; [apply onOrderbookMessage_shape|].
    by destruct (onOrderbookMessage_routed
                   (JsMap.get (_id i) (refs_orderbook st) ≫= lastOrderbookData)
                   (Some i) st) as (h & r & evs & -> & _).
Qed.

Lemma registry_shape_get m m' k r' :
  registry_shape m' = registry_shape m →
  JsMap.get k m' = Some r' →
  ∃ r, JsMap.get k m = Some r ∧ instrument r = instrument r'.
Proof.
  revert m. induction m' as [|[k1 r1] m' IH]; intros m Hs; [done|].
  destruct m as [|[k0 r0] m]; [done|]. simpl in Hs.
  injection Hs as Hk Hc Hi Hs. subst k1. simpl.
  destruct (decide (k = k0)).
  - intros [= <-]. by exists r0.
  - by apply IH.
Qed.

Lemma JsMap_get_delete_some {V : Type} k k' (v : V) m :
  JsMap.get k' (JsMap.delete k m) = Some v → JsMap.get k' m = Some v.
Proof.
  destruct (decide (k = k')) as [->|Hne].
  - by rewrite JsMap_get_delete_eq.
  - by rewrite JsMap_get_delete_ne.
Qed.

Lemma perform_indexed st a : indexed st → indexed (perform st a).
Proof.
  intros [Hr Hf]. pose proof (perform_registry st a) as Hp.
  destruct a as [ins refs|ins refs response|ins0 refs| |ins0 orderbook|data|fin
                |i0|dt|newValue|so stt w];
    try (destruct Hp as (Hs & Ht & Hfi); split;
         [ intros k r' [Hg|Hg];
           [ destruct (registry_shape_get _ _ _ _ Hs Hg) as (r & Hg' & <-);
             rewrite Hfi; apply (Hr k r); by left
           | rewrite Ht in Hg; rewrite Hfi; apply (Hr k r'); by right ]
         | intros f i; rewrite Hfi; apply Hf ]).
  - rewrite Hp. split.
    + assert (Hold : ∀ k r,
                JsMap.get k (refs_orderbook st) = Some r
                ∨ JsMap.get k (refs_allTrades st) = Some r →
                _id (instrument r) = k
                ∧ is_Some (figis (addFirstRef_begin ins refs st)
                             !! tinkoffFigi (instrument r))).
      { intros k r Hg. destruct (Hr k r Hg) as [Hk Hi]. split; [done|].
        destruct (decide (tinkoffFigi (instrument r) = tinkoffFigi ins)) as [E|E].
        - rewrite E. destruct refs; simpl; rewrite lookup_insert_eq; by eexists.
        - destruct refs; simpl; by rewrite lookup_insert_ne. }
      assert (Hnew : _id (instrument (first_ref ins)) = _id ins
                     ∧ is_Some (figis (addFirstRef_begin ins refs st)
                                  !! tinkoffFigi (instrument (first_ref ins)))).
      { split; [done|]. destruct refs; simpl; rewrite lookup_insert_eq; by eexists. }
      intros k r Hg. destruct (decide (k = _id ins)) as [->|Hk].
      * destruct refs; simpl in Hg.
        -- destruct Hg as [Hg|Hg]; [|apply Hold; by right].
           rewrite JsMap_get_set_eq in Hg. by injection Hg as <-.
        -- destruct Hg as [Hg|Hg]; [apply Hold; by left|].
           rewrite JsMap_get_set_eq in Hg. by injection Hg as <-.
        -- by apply Hold.
      * apply Hold. destruct refs; simpl in Hg;
          rewrite ?JsMap_get_set_ne in Hg by done; exact Hg.
    + intros f i. destruct refs; simpl;
        (destruct (decide (f = tinkoffFigi ins)) as [->|Hne];
         [ rewrite lookup_insert_eq; by intros [= <-]
         | rewrite lookup_insert_ne by done; apply Hf ]).
  - destruct Hp as (Ho & Ht & Hfi). split.
    + intros k r [Hg|Hg]; rewrite Hfi; apply Hr.
      * left. rewrite Ho in Hg. destruct refs; try done.
        by apply JsMap_get_delete_some in Hg.
      * right. rewrite Ht in Hg. destruct refs; try done.
        by apply JsMap_get_delete_some in Hg.
    + intros f i. rewrite Hfi. apply Hf.
Qed.

Lemma run_indexed actions st : indexed st → indexed (run actions st).
Proof.
  revert st. induction actions as [|a actions IH]; intros st Hinv; [done|].
  simpl. apply IH. by apply perform_indexed.
Qed.

(** X7. In every state the trader reaches from its construction the
    registry and the index agree: a ref of either kind is filed under the id
    of its instrument, the figi of its instrument resolves in the index (so
    a stream item for a subscribed figi always finds an instrument), and
    every index entry is filed under the figi of its instrument. *)
Theorem registry_is_indexed timeout actions :
  (∀ k r,
     JsMap.get k (refs_orderbook (run actions (initial timeout))) = Some r
     ∨ JsMap.get k (refs_allTrades (run actions (initial timeout))) = Some r →
     _id (instrument r) = k
     ∧ ∃ i, figis (run actions (initial timeout)) !! tinkoffFigi (instrument r)
            = Some i
            ∧ tinkoffFigi i = tinkoffFigi (instrument r))
  ∧ (∀ f i, figis (run actions (initial timeout)) !! f = Some i →
            tinkoffFigi i = f).
Proof.
  assert (Hi : indexed (run actions (initial timeout))).
  { apply run_indexed. split; [by intros k r [H|H] | by intros f i H]. }
  destruct Hi as [Hr Hf]. split; [|exact Hf].
  intros k r Hg. destruct (Hr k r Hg) as [Hk [i Hi]]. split; [done|].
  exists i. split; [done|]. by apply Hf.
Qed.

(** X8. The index never forgets: an entry stays through every history, and
    it still holds the same instrument as long as no [addFirstRef] in the
    history was for an instrument with the same figi. No removal, abort or
    reconnect takes anything out of the index. *)
Theorem index_never_forgets actions st f i :
  figis st !! f = Some i →
  ∃ i', figis (run actions st) !! f = Some i'
        ∧ ((∀ ins refs, AddFirstRefBegin ins refs ∈ actions → tinkoffFigi ins ≠ f) →
           i' = i).
Proof.
  revert st i. induction actions as [|a actions IH]; intros st i Hi.
  { exists i. by split. }
  simpl.
  assert (Hstep : ∃ i1, figis (perform st a) !! f = Some i1
                        ∧ ((∀ ins refs, a = AddFirstRefBegin ins refs →
                                        tinkoffFigi ins ≠ f) → i1 = i)).
  { pose proof (perform_registry st a) as Hp.
    destruct a as [ins refs|ins refs response|ins0 refs| |ins0 orderbook|data|fin
                  |i0|dt|newValue|so stt w];
      try (destruct Hp as (_ & _ & Hfi); rewrite Hfi; exists i; by split).
    rewrite Hp.
    destruct (decide (tinkoffFigi ins = f)) as [E|E].
    - exists ins. split.
      + subst f. destruct refs; simpl; apply lookup_insert_eq.
      + intros Hno. by specialize (Hno ins refs eq_refl).
    - exists i. split; [|done].
      destruct refs; simpl; by rewrite lookup_insert_ne. }
  destruct Hstep as (i1 & Hi1 & Hsame).
  destruct (IH _ _ Hi1) as (i' & Hi' & Hsame').
  exists i'. split; [done|]. intros Hno.
  rewrite Hsame'.
  - apply Hsame. intros ins refs ->. apply (Hno ins refs). left.
  - intros ins refs Hin. apply (Hno ins refs). by right.
Qed.

(** ** One stream at a time *)

Lemma at_most_one_nil live : (length live ≤ 1)%nat → at_most_one live [].
Proof.
  intros H pre post E. symmetry in E. apply app_eq_nil in E as [-> _]. done.
Qed.

Lemma at_most_one_cons live e evs :
  (length live ≤ 1)%nat → at_most_one (stream_step live e) evs →
  at_most_one live (e :: evs).
Proof.
  intros H0 H pre post E. destruct pre as [|x pre]; [done|].
  simpl in E. injection E as <- E. simpl. by apply (H pre post).
Qed.

Lemma at_most_one_app live evs1 evs2 :
  at_most_one live evs1 → at_most_one (fold_left stream_step evs1 live) evs2 →
  at_most_one live (evs1 ++ evs2).
Proof.
  revert live. induction evs1 as [|e evs1 IH]; intros live H1 H2; [done|].
  simpl. apply at_most_one_cons.
  - by apply (H1 [] (e :: evs1)).
  - apply IH; [|done]. intros pre post E. apply (H1 (e :: pre) post). by rewrite E.
Qed.

Lemma quiet_fold evs live :
  forallb (fun e => negb (stream_event e)) evs = true →
  fold_left stream_step evs live = live.
Proof.
  induction evs as [|e evs IH]; simpl; [done|].
  intros [He Hevs]%andb_true_iff. rewrite <- (IH Hevs) at 2.
  by destruct e.
Qed.

Lemma at_most_one_quiet evs live :
  (length live ≤ 1)%nat →
  forallb (fun e => negb (stream_event e)) evs = true →
  at_most_one live evs.
Proof.
  revert live. induction evs as [|e evs IH]; intros live Hl Hq.
  - by apply at_most_one_nil.
  - simpl in Hq. apply andb_true_iff in Hq as [He Hevs].
    apply at_most_one_cons; [done|].
    replace (stream_step live e) with live by (by destruct e). by apply IH.
Qed.

Lemma router_events_quiet evs :
  forallb router_event evs = true →
  forallb (fun e => negb (stream_event e)) evs = true.
Proof.
  induction evs as [|e evs IH]; simpl; [done|].
  intros [He Hevs]%andb_true_iff. rewrite IH by done. by destruct e.
Qed.

Lemma current_stream_length st : (length (current_stream st) ≤ 1)%nat.
Proof.
  unfold current_stream. destruct (marketDataAbortController st) as [c|]; simpl;
    [destruct (aborted c); simpl|]; lia.
Qed.

Lemma stream_inv_quiet st st' evs :
  stream_inv st →
  trace st' = trace st ++ evs →
  forallb (fun e => negb (stream_event e)) evs = true →
  marketDataAbortController st' = marketDataAbortController st →
  stream_inv st'.
Proof.
  intros [HK HP] Ht Hq Hc. unfold stream_inv, live_streams in *.
  rewrite Ht, fold_left_app, HK. split.
  - rewrite quiet_fold by done. unfold current_stream. by rewrite Hc.
  - apply at_most_one_app; [done|]. rewrite HK.
    apply at_most_one_quiet; [apply current_stream_length | done].
Qed.

(** Aborting the current controller closes the one stream there is. *)
Lemma abort_closes st :
  fold_left stream_step (abort_events st) (current_stream st) = []
  ∧ at_most_one (current_stream st) (abort_events st).
Proof.
  unfold abort_events, current_stream.
  destruct (marketDataAbortController st) as [c|]; simpl.
  - split.
    + destruct (aborted c); simpl; [done|]. by rewrite Nat.eqb_refl.
    + apply at_most_one_cons.
      * destruct (aborted c); simpl; lia.
      * apply at_most_one_nil. simpl.
        destruct (aborted c); simpl; [lia|]. rewrite Nat.eqb_refl. simpl. lia.
  - split; [done|]. apply at_most_one_nil. simpl. lia.
Qed.

Lemma stream_inv_abort st st' :
  stream_inv st →
  trace st' = trace (abort_controller st) →
  marketDataAbortController st' = marketDataAbortController (abort_controller st) →
  stream_inv st'.
Proof.
  intros [HK HP] Ht Hc. unfold stream_inv, live_streams in *.
  rewrite Ht, abort_controller_trace, fold_left_app, HK.
  destruct (abort_closes st) as [Hz Hb]. split.
  - rewrite Hz. unfold current_stream. rewrite Hc. unfold abort_controller.
    destruct (marketDataAbortController st) as [c|] eqn:E; simpl; [done|].
    by rewrite E.
  - apply at_most_one_app; [done|]. by rewrite HK.
Qed.

Lemma stream_inv_open st st' id request evs :
  stream_inv st →
  trace st' = trace st ++ abort_events st ++ EvOpenStream id request :: evs →
  forallb (fun e => negb (stream_event e)) evs = true →
  marketDataAbortController st' = Some {| ac_id := id; aborted := false |} →
  stream_inv st'.
Proof.
  intros [HK HP] Ht Hq Hc. unfold stream_inv, live_streams in *.
  rewrite Ht, !fold_left_app, HK.
  destruct (abort_closes st) as [Hz Hb]. rewrite Hz. split.
  - simpl. rewrite quiet_fold by done. unfold current_stream. by rewrite Hc.
  - apply at_most_one_app; [done|]. rewrite HK.
    apply at_most_one_app; [done|]. rewrite Hz.
    apply at_most_one_cons; [simpl; lia|].
    apply at_most_one_quiet; [simpl; lia | done].
Qed.

Lemma snapshot_calls_quiet st :
  forallb (fun e => negb (stream_event e)) (snapshot_calls st) = true.
Proof. unfold snapshot_calls. by induction (JsMap.values (refs_orderbook st)). Qed.

Lemma stream_inv_routed h r evs st :
  forallb router_event evs = true → stream_inv st → stream_inv (routed h r evs st).
Proof.
  intros Hev Hinv. apply (stream_inv_quiet st _ evs); try done.
  by apply router_events_quiet.
Qed.

Lemma perform_stream_inv st a : stream_inv st → stream_inv (perform st a).
Proof.
  intros Hinv.
  destruct a as [ins refs|ins refs response|ins refs| |ins orderbook|data|fin
                |i|dt|newValue|so stt w]; unfold perform.
  - destruct refs.
    + by apply (stream_inv_quiet st _ [EvGetOrderBook (tinkoffFigi ins) 50]).
    + apply (stream_inv_quiet st _ []); try done. simpl. by rewrite app_nil_r.
    + apply (stream_inv_quiet st _ []); try done. simpl. by rewrite app_nil_r.
  - unfold addFirstRef_resume.
    destruct refs; [destruct response as [e|ob]|..]; cbn [fst]; try done.
    + destruct (onOrderbookMessage_routed (Some ob) (Some ins) st)
        as (h & r & evs & -> & _ & Hev).
      apply (stream_inv_quiet (routed h r evs st) _ [EvResubscribe false]);
        try done.
      by apply stream_inv_routed.
    + by apply (stream_inv_quiet st _ [EvResubscribe false]).
  - unfold removeLastRef. cbn [fst].
    match goal with |- context [if refs_empty ?x then _ else _] =>
      set (st2 := x) end.
    assert (H2 : stream_inv st2).
    { apply (stream_inv_quiet st _ []); try done; unfold st2.
      - rewrite app_nil_r. by destruct refs.
      - by destruct refs. }
    destruct (refs_empty st2); [|done].
    by apply (stream_inv_abort st2).
  - unfold debounce_fire. destruct (pending st) as [[r due]|]; [|done].
    destruct (due <=? clock st); [|done].
    assert (H1 : stream_inv (with_pending None st)).
    { apply (stream_inv_quiet st _ []); try done. simpl. by rewrite app_nil_r. }
    destruct (refs_empty (with_pending None st)) eqn:He.
    + unfold resubscribe_begin. by rewrite He.
    + destruct (resubscribe_begin_open r _ He) as (Htr & Hc & _).
      eapply (stream_inv_open _ _ _ _ _ H1 Htr); [|exact Hc].
      destruct r; [apply snapshot_calls_quiet | done].
  - unfold snapshot_arrived.
    destruct (onOrderbookMessage_routed (Some orderbook) (Some ins) st)
      as (h & r & evs & -> & _ & Hev).
    by apply stream_inv_routed.
  - destruct (stream_item_routed data st) as (h & r & evs & -> & _ & Hev).
    apply (stream_inv_quiet st _ (EvNext :: evs)); try done.
    simpl. by apply router_events_quiet.
  - destruct fin as [|e]; simpl.
    + by apply (stream_inv_quiet st _ [EvResubscribe true]).
    + destruct (isAbortError e); [done|].
      apply (stream_inv_quiet st _
               [EvConsoleError; EvSetTimeout (reconnect_delay (emit EvConsoleError st))]);
        try done.
      simpl. by rewrite <- app_assoc.
  - unfold timer_fire. destruct (timers st !! i) as [due|]; [|done].
    destruct (due <=? clock st); [|done].
    by apply (stream_inv_quiet st _ [EvResubscribe true]).
  - apply (stream_inv_quiet st _ []); try done. simpl. by rewrite app_nil_r.
  - unfold instrumentChanged. destruct newValue as [i|]; [|done].
    destruct (decide (_id i = "")); [done|].
    destruct (onOrderbookMessage_routed
                (JsMap.get (_id i) (refs_orderbook st) ≫= lastOrderbookData)
                (Some i) st) as (h & r & evs & -> & _ & Hev).
    by apply stream_inv_routed.
  - apply (stream_inv_quiet st _ []); try done. simpl. by rewrite app_nil_r.
Qed.

Lemma run_stream_inv actions st : stream_inv st → stream_inv (run actions st).
Proof.
  revert st. induction actions as [|a actions IH]; intros st Hinv; [done|].
  simpl. apply IH. by apply perform_stream_inv.
Qed.

(** X9. In every history of the trader from its construction, at no point
    is more than one stream open: a stream is opened only after the
    controller of the one before was aborted. At the end of the history the
    open stream, if any, is the one of the current controller. *)
Theorem one_stream_at_a_time timeout actions :
  live_streams (trace (run actions (initial timeout)))
  = current_stream (run actions (initial timeout))
  ∧ ∀ pre post,
      trace (run actions (initial timeout)) = pre ++ post →
      (length (live_streams pre) ≤ 1)%nat.
Proof.
  assert (Hi : stream_inv (run actions (initial timeout))).
  { apply run_stream_inv. split; [done|]. apply at_most_one_nil. simpl. lia. }
  destruct Hi as [HK HP]. split; [exact HK | exact HP].
Qed.

(** ** Trade messages *)

Lemma print_targets_cons f fs :
  print_targets (f :: fs) =
  if is_MARKET_PRINT (datum f) then field f :: print_targets fs
  else print_targets fs.
Proof. unfold print_targets. simpl. by destruct (is_MARKET_PRINT (datum f)). Qed.

(** The inner loop writes the print into the targets of the record, at this
    widget and nowhere else. *)
Lemma trade_fields_writes src ins t fs st :
  ∃ h,
    trade_fields src ins t fs st
    = routed h (refs_orderbook st) (map (EvWrite src) (print_targets fs)) st
    ∧ (∀ l, l ≠ src → h !! l = heap st !! l)
    ∧ (∀ f, default ∅ (h !! src) !! f
            = if bool_decide (f ∈ print_targets fs)
              then Some (VPrint (trade_print ins t))
              else prop_of st src f).
Proof.
  revert st. induction fs as [|f0 fs IH]; intros st.
  - exists (heap st). split; [by rewrite routed_id|]. split; [done|].
    intros f. by rewrite bool_decide_eq_false_2 by apply not_elem_of_nil.
  - rewrite trade_fields_cons, print_targets_cons.
    destruct (is_MARKET_PRINT (datum f0)); [|apply IH].
    destruct (IH (write_field src (field f0) (VPrint (trade_print ins t)) st))
      as (h & E & H1 & H2).
    exists h. split; [|split].
    + rewrite E. unfold routed, write_field, emit, with_heap. simpl.
      by rewrite <- app_assoc.
    + intros l Hl. rewrite (H1 l Hl). simpl. by rewrite lookup_insert_ne.
    + intros f. rewrite H2. unfold prop_of. simpl. rewrite lookup_insert_eq. simpl.
      destruct (decide (f = field f0)) as [->|Hne].
      * rewrite lookup_insert_eq.
        rewrite (bool_decide_eq_true_2 (field f0 ∈ field f0 :: print_targets fs))
          by apply list_elem_of_here.
        by destruct (bool_decide (field f0 ∈ print_targets fs)).
      * rewrite lookup_insert_ne by done.
        destruct (bool_decide (f ∈ print_targets fs)) eqn:Hb.
        -- apply bool_decide_eq_true_1 in Hb.
           by rewrite bool_decide_eq_true_2 by (by apply list_elem_of_further).
        -- apply bool_decide_eq_false_1 in Hb.
           rewrite bool_decide_eq_false_2; [done|].
           by intros [?|?]%elem_of_cons.
Qed.

(** One entry of [subs.allTrades]: the widget is not bound to the instrument
    and nothing happens, or its targets are written. No ref is looked up. *)
Lemma trade_source_cases t ins st e :
  (bound_to st e.1 ins = false ∧ trade_source t ins st e = st)
  ∨ ∃ h,
      bound_to st e.1 ins = true
      ∧ trade_source t ins st e
        = routed h (refs_orderbook st) (map (EvWrite e.1) (print_targets e.2)) st
      ∧ (∀ l, l ≠ e.1 → h !! l = heap st !! l)
      ∧ (∀ f, default ∅ (h !! e.1) !! f
              = if bool_decide (f ∈ print_targets e.2)
                then Some (VPrint (trade_print ins t)) else prop_of st e.1 f).
Proof.
  unfold trade_source, bound_to.
  destruct (source_instrument st e.1) as [si|] eqn:Hsi; [|left; by auto].
  destruct (decide (_id si = _id ins)) as [Hid|Hid];
    [|left; split; [by rewrite bool_decide_eq_false_2 | done]].
  right. destruct (trade_fields_writes e.1 ins t e.2 st) as (h & E & H1 & H2).
  exists h. split; [by rewrite bool_decide_eq_true_2|]. by split.
Qed.

Lemma trade_fold_unbound t ins entries st l :
  bound_to st l ins = false →
  heap (fold_left (trade_source t ins) entries st) !! l = heap st !! l.
Proof.
  revert st. induction entries as [|e entries IH]; intros st Hl; [done|].
  simpl.
  assert (Hstep : heap (trade_source t ins st e) !! l = heap st !! l).
  { destruct (trade_source_cases t ins st e)
      as [[_ ->]|(h & Hb & -> & H1 & _)]; [done|].
    simpl. apply H1. intros ->. congruence. }
  rewrite IH; [done|]. by rewrite (bound_to_heap st).
Qed.

Lemma trade_fold_untargeted t ins entries st l f :
  (∀ fields, (l, fields) ∈ entries → f ∉ print_targets fields) →
  prop_of (fold_left (trade_source t ins) entries st) l f = prop_of st l f.
Proof.
  revert st. induction entries as [|e entries IH]; intros st Hnt; [done|].
  simpl. rewrite IH by (intros fields Hin; apply Hnt; by right).
  destruct (trade_source_cases t ins st e)
    as [[_ ->]|(h & _ & -> & H1 & H2)]; [done|].
  unfold prop_of. simpl.
  destruct (decide (l = e.1)) as [->|Hne].
  - rewrite H2. rewrite bool_decide_eq_false_2; [done|].
    apply Hnt. destruct e. left.
  - by rewrite H1.
Qed.

Lemma trade_fold_prints t ins entries st l fields f :
  NoDup entries.*1 →
  (l, fields) ∈ entries →
  bound_to st l ins = true →
  f ∈ print_targets fields →
  prop_of (fold_left (trade_source t ins) entries st) l f
  = Some (VPrint (trade_print ins t)).
Proof.
  revert st. induction entries as [|e entries IH]; intros st Hnd Hin Hb Hf.
  - by apply elem_of_nil in Hin.
  - simpl. rewrite fmap_cons in Hnd. apply NoDup_cons in Hnd as [Hfresh Hnd].
    apply elem_of_cons in Hin as [<-|Hin].
    + rewrite trade_fold_untargeted.
      * destruct (trade_source_cases t ins st (l, fields))
          as [[Hu _]|(h & _ & -> & _ & H2)]; simpl in *; [congruence|].
        unfold prop_of. simpl. rewrite H2. by rewrite bool_decide_eq_true_2.
      * intros fields' Hin'. exfalso. apply Hfresh.
        apply list_elem_of_fmap. by exists (l, fields').
    + assert (Hne : l ≠ e.1).
      { intros ->. apply Hfresh. apply list_elem_of_fmap. by exists (e.1, fields). }
      apply IH; try done.
      destruct (trade_source_cases t ins st e)
        as [[_ ->]|(h & _ & -> & H1 & _)]; [done|].
      rewrite <- Hb. apply bound_to_heap. simpl. by apply H1.
Qed.

Lemma trade_fields_heap src ins t fs st st' :
  heap st' = heap st →
  heap (trade_fields src ins t fs st') = heap (trade_fields src ins t fs st).
Proof.
  revert st st'. induction fs as [|f fs IH]; intros st st' H; [done|].
  rewrite !trade_fields_cons. apply IH.
  destruct (is_MARKET_PRINT (datum f)); [|done]. simpl. by rewrite H.
Qed.

Lemma trade_fold_heap t ins entries st st' :
  heap st' = heap st →
  heap (fold_left (trade_source t ins) entries st')
  = heap (fold_left (trade_source t ins) entries st).
Proof.
  revert st st'. induction entries as [|e entries IH]; intros st st' H; [done|].
  simpl. apply IH. unfold trade_source, source_instrument. rewrite H.
  destruct (heap st !! e.1) as [props|]; [|done].
  destruct (props !! "instrument") as [[i| | |]|]; try done.
  destruct (decide (_id i = _id ins)); [|done]. by apply trade_fields_heap.
Qed.

(** X10. A routed trade reaches the widgets bound to its instrument, and
    only them: every other widget, and every property that is no print
    target of the widget's record, is left as it was, and every print target
    of a bound widget holds the print of this trade afterwards. No ref is
    needed for that: what is written depends on the widgets and the trade
    records alone, and the ref maps are left as they are. *)
Theorem trade_message_reaches_bound_widgets t ins st :
  (∀ l, bound_to st l ins = false →
        heap (onTradeMessage (Some t) (Some ins) st) !! l = heap st !! l)
  ∧ (∀ l f, (∀ fields, (l, fields) ∈ subs_allTrades st → f ∉ print_targets fields) →
        prop_of (onTradeMessage (Some t) (Some ins) st) l f = prop_of st l f)
  ∧ (∀ l fields f,
       NoDup (subs_allTrades st).*1 →
       (l, fields) ∈ subs_allTrades st →
       bound_to st l ins = true →
       f ∈ print_targets fields →
       prop_of (onTradeMessage (Some t) (Some ins) st) l f
       = Some (VPrint (trade_print ins t)))
  ∧ (∀ st', heap st' = heap st → subs_allTrades st' = subs_allTrades st →
        heap (onTradeMessage (Some t) (Some ins) st')
        = heap (onTradeMessage (Some t) (Some ins) st))
  ∧ refs_orderbook (onTradeMessage (Some t) (Some ins) st) = refs_orderbook st
  ∧ refs_allTrades (onTradeMessage (Some t) (Some ins) st) = refs_allTrades st.
Proof.
  split; [|split; [|split; [|split]]].
  - intros l Hl. simpl. by apply trade_fold_unbound.
  - intros l f Hnt. simpl. by apply trade_fold_untargeted.
  - intros l fields f Hnd Hin Hb Hf. simpl.
    by apply (trade_fold_prints t ins (subs_allTrades st) st l fields f).
  - intros st' Hh Hs. simpl. rewrite Hs. by apply trade_fold_heap.
  - by destruct (onTradeMessage_routed (Some t) (Some ins) st)
      as (h & evs & -> & _).
Qed.

(** ** Replaying the cached book *)

Lemma JsMap_set_same {V : Type} k (v : V) m :
  JsMap.get k m = Some v → JsMap.set k v m = m.
Proof.
  induction m as [|[k0 v0] m IH]; simpl; [done|].
  destruct (decide (k = k0)) as [->|Hne].
  - by intros [= ->].
  - intros H. by rewrite IH.
Qed.

Lemma cache_orderbook_same ref ob :
  lastOrderbookData ref = Some ob → cache_orderbook ref ob = ref.
Proof. destruct ref. simpl. by intros ->. Qed.

(** X11. [instrumentChanged] for an instrument with a non-empty id (an empty
    id is falsy, and the code then returns before the replay) replays the
    book cached in the ref of the instrument, and does nothing else:
    without a ref, or with a ref that has no cached book, the state stays as
    it is; otherwise every bound widget with an order-book record gets the
    cached book in its targets. In either case the ref maps are exactly as
    before and the history grows by router events only, so no call leaves
    the trader and no resubscribe is requested. *)
Theorem instrumentChanged_replays_the_cache i st :
  _id i ≠ "" →
  (JsMap.get (_id i) (refs_orderbook st) ≫= lastOrderbookData = None →
     instrumentChanged (Some i) st = st)
  ∧ refs_orderbook (instrumentChanged (Some i) st) = refs_orderbook st
  ∧ refs_allTrades (instrumentChanged (Some i) st) = refs_allTrades st
  ∧ pending (instrumentChanged (Some i) st) = pending st
  ∧ (∃ evs, trace (instrumentChanged (Some i) st) = trace st ++ evs
            ∧ forallb router_event evs = true)
  ∧ (∀ ref ob l fields f,
       JsMap.get (_id i) (refs_orderbook st) = Some ref →
       lastOrderbookData ref = Some ob →
       NoDup (subs_orderbook st).*1 →
       (l, fields) ∈ subs_orderbook st →
       bound_to st l i = true →
       f ∈ targets fields →
       prop_of (instrumentChanged (Some i) st) l f = Some (VBook (book_view ob))).
Proof.
  intros Hid. unfold instrumentChanged. rewrite decide_False by done.
  split; [by intros ->|].
  assert (Hrefs : refs_orderbook
                    (onOrderbookMessage
                       (JsMap.get (_id i) (refs_orderbook st) ≫= lastOrderbookData)
                       (Some i) st) = refs_orderbook st).
  { destruct (JsMap.get (_id i) (refs_orderbook st)) as [ref|] eqn:Hget; [|done].
    simpl. destruct (lastOrderbookData ref) as [ob|] eqn:Hob; [|done].
    simpl.
    destruct (orderbook_fold_cases ob i (subs_orderbook st) st)
      as [[_ ->]|(ref' & h & evs & Hget' & _ & ->)]; [done|].
    simpl. rewrite Hget in Hget'. injection Hget' as <-.
    rewrite cache_orderbook_same by done. by apply JsMap_set_same. }
  split; [exact Hrefs|].
  destruct (onOrderbookMessage_routed
              (JsMap.get (_id i) (refs_orderbook st) ≫= lastOrderbookData)
              (Some i) st) as (h & r & evs & E & _ & Hev).
  split; [by rewrite E|]. split; [by rewrite E|].
  split; [exists evs; by rewrite E|].
  intros ref ob l fields f Hget Hob Hnd Hin Hb Hf. rewrite Hget. simpl.
  rewrite Hob.
  apply (orderbook_fold_seeds ob i (subs_orderbook st) st l fields f);
    try done; by exists ref.
Qed.

(** ** How a session leaves the trader *)



(** ** Trade history at any depth *)

(** X13. Whatever the depth, [allTrades] answers with the newest trades of
    the call, newest first, and with nothing else: the answer of the call
    splits into older and newer trades, and the result is the prints of the
    newer ones read backwards. A positive depth keeps that many trades (all
    of them when there are fewer); depth 0 keeps them all; a negative depth
    drops that many of the oldest. A failure of the call is the failure of
    [allTrades]. *)
Theorem allTrades_is_a_reversed_suffix ins depth trades e :
  allTrades (Some ins) depth (inl e) = inl e
  ∧ ∃ older newer,
      trades = older ++ newer
      ∧ allTrades (Some ins) depth (inr trades)
        = inr (map (trade_print ins) (rev newer))
      ∧ (0 < depth →
           length newer = Z.to_nat (Z.min depth (Z.of_nat (length trades))))
      ∧ (depth ≤ 0 →
           length older = Z.to_nat (Z.min (- depth) (Z.of_nat (length trades)))).
Proof.
  split; [done|].
  set (k := Z.to_nat (if - depth <? 0
                      then Z.max (Z.of_nat (length trades) + - depth) 0
                      else Z.min (- depth) (Z.of_nat (length trades)))).
  exists (take k trades), (drop k trades).
  split; [by rewrite take_drop|]. split; [done|]. split; intros Hd.
  - rewrite length_drop. unfold k.
    destruct (- depth <? 0) eqn:E; [lia | apply Z.ltb_ge in E; lia].
  - rewrite length_take. unfold k.
    destruct (- depth <? 0) eqn:E; [apply Z.ltb_lt in E; lia | lia].
Qed.

(** ** The same book twice *)

(** X14. Routing the same book message a second time changes nothing a
    consumer can read and nothing in the ref maps: the snapshot of a
    reconnect and a stream item that carry the same book are as good as one
    of them. The widgets are the keys of a [Map], so no widget has two
    records. *)
Theorem book_message_twice ob ins st :
  NoDup (subs_orderbook st).*1 →
  refs_orderbook
    (onOrderbookMessage (Some ob) (Some ins)
       (onOrderbookMessage (Some ob) (Some ins) st))
  = refs_orderbook (onOrderbookMessage (Some ob) (Some ins) st)
  ∧ ∀ l f,
      prop_of (onOrderbookMessage (Some ob) (Some ins)
                 (onOrderbookMessage (Some ob) (Some ins) st)) l f
      = prop_of (onOrderbookMessage (Some ob) (Some ins) st) l f.
Proof.
  intros Hnd. cbn [onOrderbookMessage].
  set (entries := subs_orderbook st).
  destruct (orderbook_fold_cases ob ins entries st)
    as [[_ E]|(ref & h & evs & Hget & _ & E)].
  { rewrite E. fold entries. by rewrite E. }
  set (st1 := fold_left (orderbook_source ob ins) entries st) in *.
  assert (Hsubs : subs_orderbook st1 = entries) by (by rewrite E).
  assert (Hget1 : JsMap.get (_id ins) (refs_orderbook st1)
                  = Some (cache_orderbook ref ob)).
  { rewrite E. simpl. apply JsMap_get_set_eq. }
  rewrite Hsubs. split.
  - destruct (orderbook_fold_cases ob ins entries st1)
      as [[_ ->]|(ref1 & h1 & evs1 & Hg & _ & ->)]; [done|].
    simpl. rewrite Hget1 in Hg. injection Hg as <-.
    by apply JsMap_set_same.
  - intros l f.
    destruct (bound_to st1 l ins) eqn:Hb1.
    2:{ unfold prop_of. by rewrite orderbook_fold_unbound. }
    assert (Hb : bound_to st l ins = true).
    { destruct (bound_to st l ins) eqn:Hb; [done|].
      rewrite <- Hb1. symmetry. rewrite <- Hb at 1.
      apply bound_to_heap. fold st1. unfold st1.
      by apply orderbook_fold_unbound. }
    destruct (decide (Exists (fun e => e.1 = l ∧ f ∈ targets e.2) entries))
      as [Hex|Hno].
    + apply Exists_exists in Hex as ([l' fields] & Hin & Hl & Hf).
      simpl in Hl, Hf. subst l'.
      rewrite (orderbook_fold_seeds ob ins entries st1 l fields f)
        by first [done | by eexists].
      symmetry. unfold st1.
      apply (orderbook_fold_seeds ob ins entries st l fields f);
        try done; by exists ref.
    + apply orderbook_fold_untargeted. intros fields Hin Hf. apply Hno.
      apply Exists_exists. by exists (l, fields).
Qed.

(** ** Stream items after a removal *)

(** X15. [removeLastRef] leaves the index entry of the instrument, so items
    the stream still delivers for it keep resolving, and the two routers
    treat them differently. A book item finds no ref and changes nothing. A
    trade item is routed without a look at the refs: it writes the same
    prints into the same widgets as it would have before the removal. *)
Theorem late_items_after_removal ins data st :
  figis st !! tinkoffFigi ins = Some ins →
  (∀ ob, sd_orderbook data = Some ob → ob_figi ob = tinkoffFigi ins →
     stream_item data (removeLastRef ins OrderbookRefs st).1
     = emit EvNext (removeLastRef ins OrderbookRefs st).1)
  ∧ (∀ t, sd_orderbook data = None → sd_trade data = Some t →
       tr_figi t = tinkoffFigi ins →
       heap (stream_item data (removeLastRef ins AllTradesRefs st).1)
       = heap (stream_item data st)).
Proof.
  intros Hfig. split.
  - intros ob Hd Hf.
    destruct (removeLastRef_registry ins OrderbookRefs st) as (Ho & _ & Hfi).
    set (st' := (removeLastRef ins OrderbookRefs st).1) in *.
    unfold stream_item. rewrite Hd.
    change (figis (emit EvNext st')) with (figis st'). rewrite Hfi, Hf, Hfig.
    cbn [onOrderbookMessage]. apply orderbook_fold_no_ref.
    change (refs_orderbook (emit EvNext st')) with (refs_orderbook st').
    rewrite Ho. apply JsMap_get_delete_eq.
  - intros t Hd Ht Hf.
    destruct (removeLastRef_registry ins AllTradesRefs st) as (_ & _ & Hfi).
    assert (Hh : heap (removeLastRef ins AllTradesRefs st).1 = heap st
                 ∧ subs_allTrades (removeLastRef ins AllTradesRefs st).1
                   = subs_allTrades st).
    { unfold removeLastRef. cbn [fst].
      match goal with |- context [if refs_empty ?x then _ else _] =>
        destruct (refs_empty x) end;
        unfold abort_controller; try destruct (marketDataAbortController _); done. }
    destruct Hh as [Hh Hs].
    set (st' := (removeLastRef ins AllTradesRefs st).1) in *.
    unfold stream_item. rewrite Hd, Ht.
    change (figis (emit EvNext st')) with (figis st').
    change (figis (emit EvNext st)) with (figis st).
    rewrite Hfi, Hf, Hfig. cbn [onTradeMessage].
    change (subs_allTrades (emit EvNext st')) with (subs_allTrades st').
    change (subs_allTrades (emit EvNext st)) with (subs_allTrades st).
    rewrite Hs. by apply trade_fold_heap.
Qed.

End Trader.

(** ** Binary64 rounding *)

Module Binary64Facts.
Import Binary64.
Local Open Scope Q_scope.

Lemma pow2_pos e : 0 < pow2 e.
Proof. apply Qpower_0_lt. reflexivity. Qed.

Lemma pow2_add a b : pow2 (a + b) == pow2 a * pow2 b.
Proof. apply Qpower_plus. discriminate. Qed.

Lemma pow2_le a b : (a <= b)%Z -> pow2 a <= pow2 b.
Proof. intros H. apply Qpower_le_compat_l; [exact H | discriminate]. Qed.

Lemma pow2_lt a b : (a < b)%Z -> pow2 a < pow2 b.
Proof. intros H. apply Qpower_lt_compat_l; [exact H | reflexivity]. Qed.

Lemma pow2_inject e : (0 <= e)%Z -> pow2 e == inject_Z (2 ^ e).
Proof. intros H. unfold pow2. rewrite (Zpower_Qpower 2 e H). reflexivity. Qed.

Lemma pow2_0 : pow2 0 == 1.
Proof. reflexivity. Qed.

Lemma pow2_opp_l e : pow2 (- e) * pow2 e == 1.
Proof. rewrite <- pow2_add. replace (- e + e)%Z with 0%Z by lia. reflexivity. Qed.

Lemma rne_floor_le t : inject_Z (Qfloor t) <= t < inject_Z (Qfloor t) + 1.
Proof.
  split; [apply Qfloor_le|].
  pose proof (Qlt_floor t) as H. rewrite inject_Z_plus in H. exact H.
Qed.

Lemma rne_nearest t (k : Z) : Qabs (inject_Z (rne t) - t) <= Qabs (inject_Z k - t).
Proof.
  pose proof (rne_floor_le t) as [Hlo Hhi].
  assert (Hk : (k <= Qfloor t)%Z \/ (Qfloor t + 1 <= k)%Z) by lia.
  assert (Hk' : inject_Z k <= inject_Z (Qfloor t) \/ inject_Z (Qfloor t) + 1 <= inject_Z k).
  { destruct Hk as [Hk|Hk]; [left|right].
    - rewrite <- Zle_Qle. exact Hk.
    - rewrite Zle_Qle, inject_Z_plus in Hk. exact Hk. }
  clear Hk. unfold rne.
  destruct (Qcompare_spec (t - inject_Z (Qfloor t)) (1 # 2)) as [He|Hl|Hg];
    [destruct (Z.even (Qfloor t))| |];
    rewrite ?inject_Z_plus; change (inject_Z 1) with 1;
    apply Qabs_case; intros; apply Qabs_case; intros; destruct Hk'; lra.
Qed.

Lemma Qabs_make_mul (q : Q) :
  Qabs q * inject_Z (Zpos (Qden q)) == inject_Z (Z.abs (Qnum q)).
Proof.
  destruct q as [n d]. simpl. unfold Qeq, Qmult, inject_Z. simpl. lia.
Qed.

Lemma log2_bounds (a : Z) :
  (0 < a)%Z -> pow2 (Z.log2 a) <= inject_Z a /\ inject_Z a < pow2 (Z.log2 a + 1).
Proof.
  intros Ha. pose proof (Z.log2_spec a Ha) as [H1 H2].
  pose proof (Z.log2_nonneg a) as Hn.
  rewrite !pow2_inject by lia. rewrite <- Zle_Qle, <- Zlt_Qlt.
  replace (Z.log2 a + 1)%Z with (Z.succ (Z.log2 a)) by lia. done.
Qed.

Lemma ilog2_spec (q : Q) :
  ~ q == 0 -> pow2 (ilog2 q) <= Qabs q /\ Qabs q < pow2 (ilog2 q + 1).
Proof.
  intros Hq.
  assert (Ha : (0 < Z.abs (Qnum q))%Z).
  { destruct q as [n d]. unfold Qeq in Hq. simpl in *. lia. }
  pose proof (log2_bounds _ Ha) as [Ha1 Ha2].
  pose proof (log2_bounds (Zpos (Qden q)) eq_refl) as [Hd1 Hd2].
  pose proof (Qabs_make_mul q) as Hx.
  pose proof (Qabs_nonneg q) as Hx0.
  unfold ilog2.
  set (ln := Z.log2 (Z.abs (Qnum q))) in *.
  set (ld := Z.log2 (Zpos (Qden q))) in *.
  set (A := inject_Z (Z.abs (Qnum q))) in *.
  set (D := inject_Z (Zpos (Qden q))) in *.
  set (x := Qabs q) in *.
  assert (Hk1 : pow2 (ln - ld + 1) * pow2 ld == pow2 (ln + 1)).
  { rewrite <- pow2_add. replace (ln - ld + 1 + ld)%Z with (ln + 1)%Z by lia. reflexivity. }
  assert (Hk0 : pow2 (ln - ld - 1) * pow2 (ld + 1) == pow2 ln).
  { rewrite <- pow2_add. replace (ln - ld - 1 + (ld + 1))%Z with ln by lia. reflexivity. }
  pose proof (pow2_pos ld). pose proof (pow2_pos (ld + 1)).
  pose proof (pow2_pos (ln - ld + 1)). pose proof (pow2_pos (ln - ld - 1)).
  destruct (Qle_bool (pow2 (ln - ld)) x) eqn:Hb.
  - apply Qle_bool_iff in Hb. split; [exact Hb|]. nra.
  - assert (Hlt : x < pow2 (ln - ld)).
    { apply Qnot_le_lt. intros Hle. apply Qle_bool_iff in Hle. congruence. }
    replace (ln - ld - 1 + 1)%Z with (ln - ld)%Z by lia.
    split; [|exact Hlt]. nra.
Qed.

Lemma rnd_unfold (q : Q) :
  ~ q == 0 -> rnd q = inject_Z (rne (q / pow2 (cexp q))) * pow2 (cexp q).
Proof.
  intros Hq. unfold rnd. destruct (Qeq_bool q 0) eqn:Hb; [|reflexivity].
  apply Qeq_bool_iff in Hb. contradiction.
Qed.

Lemma scaled_back (q : Q) (e : Z) : q / pow2 e * pow2 e == q.
Proof. pose proof (pow2_pos e). field. lra. Qed.

Lemma Qabs_scale (a : Q) (e : Z) : Qabs (a * pow2 e) == Qabs a * pow2 e.
Proof.
  rewrite Qabs_Qmult. rewrite (Qabs_pos (pow2 e)); [reflexivity|].
  apply Qlt_le_weak, pow2_pos.
Qed.

Lemma rnd_nearest_grid (q : Q) (k : Z) :
  ~ q == 0 ->
  Qabs (rnd q - q) <= Qabs (inject_Z k * pow2 (cexp q) - q).
Proof.
  intros Hq. rewrite (rnd_unfold q Hq).
  set (e := cexp q). set (t := q / pow2 e).
  pose proof (rne_nearest t k) as Hn.
  pose proof (scaled_back q e) as Hs. fold t in Hs.
  assert (E1 : inject_Z (rne t) * pow2 e - q == (inject_Z (rne t) - t) * pow2 e) by lra.
  assert (E2 : inject_Z k * pow2 e - q == (inject_Z k - t) * pow2 e) by lra.
  rewrite E1, E2, !Qabs_scale.
  apply Qmult_le_compat_r; [exact Hn|]. apply Qlt_le_weak, pow2_pos.
Qed.

Lemma cexp_bound (q : Q) : ~ q == 0 -> Qabs q < pow2 (cexp q + 53).
Proof.
  intros Hq. destruct (ilog2_spec q Hq) as [_ H].
  eapply Qlt_le_trans; [exact H|]. apply pow2_le. unfold cexp. lia.
Qed.

Lemma pow2_53 (e : Z) : pow2 (e + 53) == inject_Z (2 ^ 53) * pow2 e.
Proof. rewrite Z.add_comm, pow2_add. rewrite (pow2_inject 53) by lia. reflexivity. Qed.

Lemma rne_scaled_bound (q : Q) :
  ~ q == 0 -> (Z.abs (rne (q / pow2 (cexp q))) <= 2 ^ 53)%Z.
Proof.
  intros Hq. set (e := cexp q). set (t := q / pow2 e).
  assert (Ht : Qabs t < inject_Z (2 ^ 53)).
  { pose proof (cexp_bound q Hq) as Hb. fold e in Hb. rewrite pow2_53 in Hb.
    pose proof (scaled_back q e) as Hs. fold t in Hs.
    rewrite <- Hs, Qabs_scale in Hb.
    pose proof (pow2_pos e). apply Qnot_le_lt. intros Hle.
    apply (Qmult_le_compat_r _ _ (pow2 e)) in Hle; lra. }
  apply Qabs_Qlt_condition in Ht. destruct Ht as [Ht1 Ht2].
  pose proof (rne_nearest t (2 ^ 53)%Z) as H1.
  pose proof (rne_nearest t (- 2 ^ 53)%Z) as H2.
  rewrite inject_Z_opp in H2.
  assert (Hr : - inject_Z (2 ^ 53) <= inject_Z (rne t) <= inject_Z (2 ^ 53)).
  { revert H1 H2. apply Qabs_case; intros; revert H1; apply Qabs_case; intros;
      revert H2; apply Qabs_case; intros; lra. }
  destruct Hr as [Hr1 Hr2]. rewrite <- inject_Z_opp in Hr1.
  rewrite <- Zle_Qle in Hr1, Hr2. lia.
Qed.

Lemma cexp_emin (q : Q) : (emin <= cexp q)%Z.
Proof. unfold cexp. lia. Qed.

(** Rounding lands on a representable value. *)
Lemma rnd_F (q : Q) : F (rnd q).
Proof.
  destruct (Qeq_dec q 0) as [Hq|Hq].
  - unfold rnd. apply Qeq_bool_iff in Hq. rewrite Hq.
    exists 0%Z, 0%Z. split; [reflexivity|]. split; [reflexivity | unfold emin; lia].
  - rewrite (rnd_unfold q Hq).
    pose proof (rne_scaled_bound q Hq) as Hb. pose proof (cexp_emin q) as He.
    set (k := rne (q / pow2 (cexp q))) in *. set (e := cexp q) in *.
    clearbody k e.
    change (2 ^ 53)%Z with 9007199254740992%Z in *.
    destruct (Z.eq_dec (Z.abs k) 9007199254740992%Z) as [Heq|Hne].
    + assert (Hk2 : k = 9007199254740992%Z \/ k = (- 9007199254740992)%Z) by lia.
      exists (k / 2)%Z, (e + 1)%Z. split; [|split; [|lia]].
      * rewrite Z.add_comm, pow2_add. change (pow2 1) with 2.
        destruct Hk2 as [-> | ->]; vm_compute (inject_Z _); ring.
      * destruct Hk2 as [-> | ->]; reflexivity.
    + exists k, e. change (2 ^ 53)%Z with 9007199254740992%Z.
      split; [reflexivity | split; lia].
Qed.

(** Rounding is to a nearest representable value. *)
Lemma rnd_nearest (q y : Q) : F y -> Qabs (rnd q - q) <= Qabs (y - q).
Proof.
  intros (m & ey & Hy & Hm & Hey).
  destruct (Qeq_dec q 0) as [Hq0|Hq].
  { unfold rnd. pose proof Hq0 as Hb. apply Qeq_bool_iff in Hb. rewrite Hb.
    rewrite Hq0. apply Qabs_case; intros; apply Qabs_case; intros; lra. }
  set (e := cexp q).
  destruct (Z_le_gt_dec e ey) as [Hle|Hgt].
  - pose proof (rnd_nearest_grid q (m * 2 ^ (ey - e))%Z Hq) as H. fold e in H.
    assert (E : inject_Z (m * 2 ^ (ey - e)) * pow2 e == y).
    { rewrite Hy, inject_Z_mult, <- (pow2_inject (ey - e)) by lia.
      rewrite <- Qmult_assoc, <- pow2_add.
      replace (ey - e + e)%Z with ey by lia. reflexivity. }
    rewrite E in H. exact H.
  - assert (Hil : e = (ilog2 q - 52)%Z) by (unfold e, cexp in *; lia).
    destruct (ilog2_spec q Hq) as [Hlo _].
    replace (ilog2 q) with (e + 52)%Z in Hlo by lia.
    assert (Hyb : Qabs y <= pow2 (e + 52)).
    { rewrite Hy, Qabs_scale.
      assert (Hm' : Qabs (inject_Z m) <= inject_Z (2 ^ 53)).
      { apply Qabs_Qle_condition. rewrite <- inject_Z_opp, <- !Zle_Qle. lia. }
      assert (Hp : pow2 ey <= pow2 (e - 1)) by (apply pow2_le; lia).
      assert (E : pow2 (e + 52) == inject_Z (2 ^ 53) * pow2 (e - 1)).
      { replace (e + 52)%Z with (e - 1 + 53)%Z by lia. apply pow2_53. }
      rewrite E. pose proof (pow2_pos ey). pose proof (Qabs_nonneg (inject_Z m)).
      apply Qle_trans with (inject_Z (2 ^ 53) * pow2 ey).
      - apply Qmult_le_compat_r; lra.
      - apply Qmult_le_l; [reflexivity | exact Hp]. }
    assert (E52 : pow2 (e + 52) == inject_Z (2 ^ 52) * pow2 e).
    { rewrite Z.add_comm, pow2_add, (pow2_inject 52) by lia. reflexivity. }
    destruct (Qlt_le_dec q 0) as [Hneg|Hpos].
    + pose proof (rnd_nearest_grid q (- 2 ^ 52)%Z Hq) as H. fold e in H.
      rewrite inject_Z_opp in H.
      eapply Qle_trans; [exact H|].
      rewrite (Qabs_neg q) in Hlo by lra.
      revert Hyb. apply Qabs_case; intros; apply Qabs_case; intros;
        apply Qabs_case; intros; lra.
    + pose proof (rnd_nearest_grid q (2 ^ 52)%Z Hq) as H. fold e in H.
      eapply Qle_trans; [exact H|].
      rewrite (Qabs_pos q) in Hlo by lra.
      revert Hyb. apply Qabs_case; intros; apply Qabs_case; intros;
        apply Qabs_case; intros; lra.
Qed.

Lemma F_compat (x y : Q) : x == y -> F x -> F y.
Proof. intros E (m & e & H & Hm & He). exists m, e. rewrite <- E. auto. Qed.

Lemma F_grid (m e : Z) :
  (Z.abs m <= 2 ^ 53)%Z -> (emin <= e)%Z -> F (inject_Z m * pow2 e).
Proof.
  intros Hm He. change (2 ^ 53)%Z with 9007199254740992%Z in Hm.
  destruct (Z.eq_dec (Z.abs m) 9007199254740992%Z) as [Heq|Hne].
  - assert (Hk2 : m = 9007199254740992%Z \/ m = (- 9007199254740992)%Z) by lia.
    exists (m / 2)%Z, (e + 1)%Z. split; [|split; [|lia]].
    + rewrite Z.add_comm, pow2_add. change (pow2 1) with 2.
      destruct Hk2 as [-> | ->]; vm_compute (inject_Z _); ring.
    + destruct Hk2 as [-> | ->]; reflexivity.
  - exists m, e. change (2 ^ 53)%Z with 9007199254740992%Z.
    split; [reflexivity | split; lia].
Qed.

Lemma F_int (z : Z) : (Z.abs z <= 2 ^ 53)%Z -> F (inject_Z z).
Proof.
  intros Hz. apply (F_compat (inject_Z z * pow2 0)); [rewrite pow2_0; ring|].
  apply F_grid; [exact Hz | unfold emin; lia].
Qed.

Lemma F_opp (x : Q) : F x -> F (- x).
Proof.
  intros (m & e & H & Hm & He). exists (- m)%Z, e.
  split; [rewrite H, inject_Z_opp; ring | split; lia].
Qed.

Lemma F_abs (x : Q) : F x -> F (Qabs x).
Proof.
  intros H. apply Qabs_case; intros; [exact H | by apply F_opp].
Qed.

(** A representable value is its own rounding. *)
Lemma rnd_exact (q : Q) : F q -> rnd q == q.
Proof.
  intros H. pose proof (rnd_nearest q q H) as Hn.
  revert Hn. apply Qabs_case; intros; revert Hn; apply Qabs_case; intros; lra.
Qed.

(** Below [2 ^ (53 - k)] rounding moves a value by at most [2 ^ (- k)]. *)
Lemma rnd_error (k : Z) (q : Q) :
  (emin <= - k)%Z -> Qabs q < pow2 (53 - k) ->
  Qabs (rnd q - q) <= pow2 (- k).
Proof.
  intros Hk Hq.
  set (m := Qfloor (q * pow2 k)).
  pose proof (rne_floor_le (q * pow2 k)) as [Hlo Hhi]. fold m in Hlo, Hhi.
  pose proof (pow2_pos k) as Hpk. pose proof (pow2_pos (- k)) as Hpk'.
  pose proof (pow2_opp_l k) as Hinv.
  assert (Hs : Qabs (q * pow2 k) < inject_Z (2 ^ 53)).
  { rewrite Qabs_scale.
    assert (E : pow2 (53 - k) * pow2 k == inject_Z (2 ^ 53)).
    { rewrite <- pow2_add. replace (53 - k + k)%Z with 53%Z by lia.
      apply pow2_inject. lia. }
    rewrite <- E. apply Qmult_lt_compat_r; assumption. }
  apply Qabs_Qlt_condition in Hs. destruct Hs as [Hs1 Hs2].
  assert (Hm : (Z.abs m <= 2 ^ 53)%Z).
  { assert (H1 : inject_Z m < inject_Z (2 ^ 53)) by lra.
    assert (H2 : inject_Z (- 2 ^ 53 - 1) < inject_Z m).
    { rewrite Z.sub_1_r, <- Z.opp_succ, inject_Z_opp, <- Z.add_1_r, inject_Z_plus.
      change (inject_Z 1) with 1. lra. }
    rewrite <- Zlt_Qlt in H1, H2. lia. }
  pose proof (rnd_nearest q _ (F_grid m (- k) Hm Hk)) as Hn.
  eapply Qle_trans; [exact Hn|].
  assert (E : inject_Z m * pow2 (- k) - q == (inject_Z m - q * pow2 k) * pow2 (- k)).
  { transitivity (inject_Z m * pow2 (- k) - q * (pow2 (- k) * pow2 k)); [rewrite Hinv|]; ring. }
  rewrite E, Qabs_scale.
  assert (Hd : Qabs (inject_Z m - q * pow2 k) <= 1).
  { apply Qabs_case; intros; lra. }
  rewrite <- (Qmult_1_l (pow2 (- k))) at 2.
  apply Qmult_le_compat_r; lra.
Qed.

Lemma nonneg_mantissa (m e : Z) : 0 <= inject_Z m * pow2 e -> (0 <= m)%Z.
Proof.
  intros H. pose proof (pow2_pos e) as Hp.
  destruct (Z_lt_le_dec m 0) as [Hneg|]; [|assumption].
  assert (Hm : inject_Z m <= inject_Z (-1)) by (rewrite <- Zle_Qle; lia).
  change (inject_Z (-1)) with (-1) in Hm. nra.
Qed.

Lemma floor_frac_F (a : Q) :
  F a -> 0 <= a ->
  F (inject_Z (Qfloor a)) /\ F (a - inject_Z (Qfloor a)).
Proof.
  intros (m & e & Ha & Hm & He) H0.
  assert (Hm0 : (0 <= m)%Z) by (apply (nonneg_mantissa m e); rewrite <- Ha; exact H0).
  destruct (Z_le_gt_dec 0 e) as [Hpos|Hneg].
  - assert (E : a == inject_Z (m * 2 ^ e)).
    { rewrite Ha, inject_Z_mult, <- pow2_inject by lia. reflexivity. }
    assert (Ef : Qfloor a = (m * 2 ^ e)%Z) by (rewrite E; apply Qfloor_Z).
    rewrite Ef. split.
    + apply (F_compat a); [exact E|]. exists m, e. auto.
    + apply (F_compat 0); [lra|]. apply (F_int 0). lia.
  - set (d := (2 ^ (- e))%Z).
    assert (Hd : (0 < d)%Z) by (apply Z.pow_pos_nonneg; lia).
    assert (Epd : pow2 e * inject_Z d == 1).
    { unfold d. rewrite <- pow2_inject by lia. rewrite <- pow2_add.
      replace (e + - e)%Z with 0%Z by lia. reflexivity. }
    assert (Hdq : 0 < inject_Z d) by (change 0 with (inject_Z 0); rewrite <- Zlt_Qlt; exact Hd).
    assert (E : a == inject_Z m / inject_Z d).
    { rewrite Ha. field_simplify_eq; [|lra].
      transitivity (inject_Z m * (pow2 e * inject_Z d)); [ring|rewrite Epd; ring]. }
    assert (Ef : Qfloor a = (m / d)%Z) by (rewrite E; symmetry; apply Zdiv_Qdiv).
    rewrite Ef.
    pose proof (Z.div_mod m d ltac:(lia)) as Hdm.
    pose proof (Z.mod_pos_bound m d Hd) as Hmod.
    pose proof (Z.div_pos m d Hm0 Hd) as Hq0.
    assert (Hqle : (m / d <= m)%Z) by (apply Z.div_le_upper_bound; nia).
    split.
    + apply F_int. lia.
    + apply (F_compat (inject_Z (m mod d) * pow2 e)).
      * rewrite Ha. rewrite Hdm at 2. rewrite inject_Z_plus, inject_Z_mult.
        transitivity (inject_Z (m mod d) * pow2 e
                      + inject_Z (m / d) * (pow2 e * inject_Z d) - inject_Z (m / d));
          [rewrite Epd|]; ring.
      * exists (m mod d)%Z, e. split; [reflexivity|]. split; lia.
Qed.

Lemma F_ge_grid (x : Q) :
  F x -> pow2 21 <= Qabs x -> exists j : Z, x == inject_Z j * pow2 (-31).
Proof.
  intros (m & e & Hx & Hm & He) Hge.
  destruct (Z_le_gt_dec (-31) e) as [Hle|Hgt].
  - exists (m * 2 ^ (e + 31))%Z.
    rewrite Hx, inject_Z_mult, <- pow2_inject by lia.
    rewrite <- Qmult_assoc, <- pow2_add.
    replace (e + 31 + -31)%Z with e by lia. reflexivity.
  - exfalso. rewrite Hx, Qabs_scale in Hge.
    assert (Hm' : Qabs (inject_Z m) <= inject_Z (2 ^ 53)).
    { apply Qabs_Qle_condition. rewrite <- inject_Z_opp, <- !Zle_Qle. lia. }
    assert (Hp : pow2 e <= pow2 (-32)) by (apply pow2_le; lia).
    assert (E : pow2 21 == inject_Z (2 ^ 53) * pow2 (-32)) by reflexivity.
    assert (Hm'' : Qabs (inject_Z m) < inject_Z (2 ^ 53)).
    { apply Qabs_Qlt_condition. rewrite <- inject_Z_opp, <- !Zlt_Qlt. lia. }
    pose proof (pow2_pos e). pose proof (Qabs_nonneg (inject_Z m)).
    assert (Qabs (inject_Z m) * pow2 e < inject_Z (2 ^ 53) * pow2 (-32)).
    { apply Qlt_le_trans with (inject_Z (2 ^ 53) * pow2 e).
      - apply Qmult_lt_compat_r; assumption.
      - apply Qmult_le_l; [reflexivity | exact Hp]. }
    lra.
Qed.

(** The two parts [toQuotation] computes from a magnitude [a] and a sign
    [s]: both products with the sign are exact, and the billionths are an
    integer between 0 and one billion, within [1/2 + 2^-23] of the scaled
    fraction. *)
Lemma quotation_parts (s a : Q) :
  s = 1 \/ s = -1 -> F a -> 0 <= a ->
  exists np : Z,
    (0 <= np <= 1000000000)%Z
    /\ fmul s (Math_floor a) == s * Math_floor a
    /\ fmul s (Math_round (fmul (fsub a (Math_floor a)) 1000000000))
       == s * inject_Z np
    /\ - (4194305 # 8388608)
       <= inject_Z np - (a - Math_floor a) * 1000000000
       <= 4194305 # 8388608.
Proof.
  intros Hs Fa Ha0. unfold fsub, fmul, Math_floor, Math_round.
  destruct (floor_frac_F a Fa Ha0) as [Fu Ff].
  destruct (rne_floor_le a) as [Hu1 Hu2].
  set (u := inject_Z (Qfloor a)) in *.
  (* the fractional part is computed exactly *)
  pose proof (rnd_exact _ Ff) as Ed1. set (d1 := rnd (a - u)) in *.
  (* scaling to billionths *)
  assert (Hp : Qabs (rnd (d1 * 1000000000) - d1 * 1000000000) <= 1 # 8388608).
  { apply (rnd_error 23); [unfold emin; lia|].
    change (pow2 (53 - 23)) with (1073741824 # 1). apply Qabs_case; intros; lra. }
  set (p := rnd (d1 * 1000000000)) in *.
  apply Qabs_Qle_condition in Hp.
  destruct (rne_floor_le (p + (1 # 2))) as [Hn1 Hn2].
  set (np := Qfloor (p + (1 # 2))) in *.
  assert (Hnp : (0 <= np <= 1000000000)%Z).
  { assert (H1 : inject_Z (-1) < inject_Z np) by (change (inject_Z (-1)) with (-1); lra).
    assert (H2 : inject_Z np < inject_Z 1000000001)
      by (change (inject_Z 1000000001) with 1000000001; lra).
    rewrite <- Zlt_Qlt in H1, H2. lia. }
  (* applying the sign is exact *)
  assert (FU : F (s * u)).
  { destruct Hs as [-> | ->].
    - apply (F_compat u); [ring | exact Fu].
    - apply (F_compat (- u)); [ring | apply F_opp, Fu]. }
  assert (FN : F (s * inject_Z np)).
  { destruct Hs as [-> | ->].
    - apply (F_compat (inject_Z np)); [ring | apply F_int; lia].
    - apply (F_compat (- inject_Z np)); [ring | apply F_opp, F_int; lia]. }
  exists np. split; [exact Hnp|]. split; [exact (rnd_exact _ FU)|].
  split; [exact (rnd_exact _ FN)|]. lra.
Qed.

Lemma roundtrip_core (s a : Q) :
  s = 1 \/ s = -1 -> F a -> 0 <= a ->
  Qabs (fadd (fmul s (Math_floor a))
             (fdiv (fmul s (Math_round (fmul (fsub a (Math_floor a)) 1000000000)))
                   1000000000)
        - s * a) <= 1 # 1000000000.
Proof.
  intros Hs Fa Ha0.
  destruct (quotation_parts s a Hs Fa Ha0) as (np & Hnp & EU & EN & Hfrac).
  destruct (floor_frac_F a Fa Ha0) as [Fu _].
  destruct (rne_floor_le a) as [Hu1 Hu2].
  unfold fadd, fdiv. unfold Math_floor in EU, Hfrac, Fu |- * at 1.
  set (u := inject_Z (Qfloor a)) in *.
  set (U := fmul s u) in *.
  set (N := fmul s (Math_round (fmul (fsub a (Math_floor a)) 1000000000))) in *.
  assert (Hnq : 0 <= inject_Z np <= 1000000000).
  { change 0 with (inject_Z 0). change 1000000000 with (inject_Z 1000000000).
    rewrite <- !Zle_Qle. lia. }
  (* back to a number: the division *)
  assert (HD : Qabs (rnd (N / 1000000000) - N / 1000000000) <= 1 # 4503599627370496).
  { apply (rnd_error 52); [unfold emin; lia|].
    change (pow2 (53 - 52)) with 2.
    assert (E : N / 1000000000 == N * (1 # 1000000000)) by (field; lra).
    rewrite E. destruct Hs as [-> | ->]; apply Qabs_case; intros; lra. }
  assert (HD0 : Qabs (rnd (N / 1000000000) - N / 1000000000) <= Qabs (0 - N / 1000000000)).
  { apply rnd_nearest. apply (F_int 0). lia. }
  assert (EDiv : N / 1000000000 == N * (1 # 1000000000)) by (field; lra).
  set (D := rnd (N / 1000000000)) in *.
  rewrite EDiv in HD, HD0.
  apply Qabs_Qle_condition in HD.
  assert (HDs : 0 <= s * D).
  { revert HD0. destruct Hs as [-> | ->];
      apply Qabs_case; intros; revert HD0; apply Qabs_case; intros; lra. }
  (* the exact sum is within eps of the input *)
  assert (HS : Qabs (U + D - s * a) <= 5000003413 # 10000000000000000000).
  { apply Qabs_Qle_condition. destruct Hs as [-> | ->]; lra. }
  pose proof (rnd_F (U + D)) as FR.
  set (R := rnd (U + D)) in *.
  assert (Fx : F (s * a)).
  { destruct Hs as [-> | ->].
    - apply (F_compat a); [ring | exact Fa].
    - apply (F_compat (- a)); [ring | apply F_opp, Fa]. }
  assert (HRx : Qabs (R - (U + D)) <= Qabs (s * a - (U + D))) by (apply rnd_nearest, Fx).
  destruct (Qlt_le_dec a (pow2 21)) as [Hsmall|Hbig].
  - (* below 2^21 the last rounding moves the sum by at most 2^-31 *)
    change (pow2 21) with 2097152 in Hsmall.
    assert (HR : Qabs (R - (U + D)) <= 1 # 2147483648).
    { apply (rnd_error 31); [unfold emin; lia|].
      change (pow2 (53 - 31)) with 4194304.
      apply Qabs_Qle_condition in HS.
      destruct Hs as [-> | ->]; apply Qabs_case; intros; lra. }
    apply Qabs_Qle_condition in HR. apply Qabs_Qle_condition in HS.
    apply Qabs_Qle_condition. lra.
  - (* from 2^21 on both values lie on the grid of step 2^-31 *)
    assert (Hxa : Qabs (s * a) == a).
    { destruct Hs as [-> | ->]; apply Qabs_case; intros; lra. }
    destruct (F_ge_grid (s * a) Fx) as [j Hj]; [rewrite Hxa; exact Hbig|].
    assert (Hu21 : pow2 21 <= u).
    { change (pow2 21) with (inject_Z 2097152). unfold u. rewrite <- Zle_Qle.
      rewrite <- (Qfloor_Z 2097152). apply Qfloor_resp_le. exact Hbig. }
    change (pow2 21) with 2097152 in Hu21, Hbig.
    assert (HRs : 2097152 <= s * R).
    { assert (F21 : F (s * 2097152)).
      { destruct Hs as [-> | ->].
        - apply (F_int 2097152). lia.
        - apply (F_int (- 2097152)). lia. }
      pose proof (rnd_nearest (U + D) _ F21) as H21. fold R in H21.
      revert H21. destruct Hs as [-> | ->];
        apply Qabs_case; intros; revert H21; apply Qabs_case; intros; lra. }
    destruct (F_ge_grid R FR) as [j' Hj'].
    { change (pow2 21) with 2097152.
      destruct Hs as [-> | ->]; apply Qabs_case; intros; lra. }
    change (pow2 (-31)) with (1 # 2147483648) in Hj, Hj'.
    assert (Hdiff : Qabs (R - s * a) <= 10000006826 # 10000000000000000000).
    { apply Qabs_Qle_condition in HS.
      revert HRx. apply Qabs_case; intros; revert HRx; apply Qabs_case; intros;
        apply Qabs_Qle_condition; lra. }
    apply Qabs_Qle_condition in Hdiff.
    assert (Ej : inject_Z (j' - j) == inject_Z j' - inject_Z j).
    { unfold Z.sub, Qminus. rewrite inject_Z_plus, inject_Z_opp. reflexivity. }
    assert (Hjj : (-2 <= j' - j <= 2)%Z).
    { assert (H1 : inject_Z (-3) < inject_Z (j' - j)).
      { rewrite Ej. change (inject_Z (-3)) with (-3). lra. }
      assert (H2 : inject_Z (j' - j) < inject_Z 3).
      { rewrite Ej. change (inject_Z 3) with 3. lra. }
      rewrite <- Zlt_Qlt in H1, H2. lia. }
    assert (Hjq : inject_Z (-2) <= inject_Z (j' - j) <= inject_Z 2).
    { rewrite <- !Zle_Qle. lia. }
    rewrite Ej in Hjq. change (inject_Z (-2)) with (-2) in Hjq.
    change (inject_Z 2) with 2 in Hjq.
    apply Qabs_Qle_condition. lra.
Qed.
(** The largest finite value is one last place below [2 ^ 1024]: a
    representable value below [2 ^ 1024] is at most [2 ^ 1024 - 2 ^ 971]. *)
Lemma F_below_top (y : Q) :
  F y -> Qabs y < pow2 1024 -> Qabs y <= pow2 1024 - pow2 971.
Proof.
  intros (m & e & Hy & Hm & He) Hlt.
  rewrite Hy, Qabs_scale in Hlt |- *.
  pose proof (pow2_pos e) as Hpe. pose proof (Qabs_nonneg (inject_Z m)) as Hm0.
  assert (Habs : Qabs (inject_Z m) == inject_Z (Z.abs m)).
  { destruct (Z_le_gt_dec 0 m) as [Hp|Hn].
    - rewrite Qabs_pos, Z.abs_eq by (try rewrite <- (Zle_Qle 0); lia). reflexivity.
    - rewrite Qabs_neg, Z.abs_neq, inject_Z_opp
        by (try (change 0 with (inject_Z 0); rewrite <- Zle_Qle); lia).
      reflexivity. }
  rewrite Habs in Hlt |- *. clear Habs Hm0.
  assert (H0 : 0 <= inject_Z (Z.abs m))
    by (change 0 with (inject_Z 0); rewrite <- Zle_Qle; lia).
  destruct (Z_le_gt_dec e 971) as [Hle|Hgt].
  - assert (E : pow2 1024 == inject_Z (2 ^ 53) * pow2 971) by reflexivity.
    assert (Hp : pow2 e <= pow2 971) by (apply pow2_le; lia).
    assert (Hm' : inject_Z (Z.abs m) <= inject_Z (2 ^ 53) - 1).
    { change 1 with (inject_Z 1). unfold Qminus.
      rewrite <- inject_Z_opp, <- inject_Z_plus, <- Zle_Qle. lia. }
    pose proof (pow2_pos 971) as Hp971.
    assert (H1 : 0 <= (pow2 971 - pow2 e) * inject_Z (Z.abs m))
      by (apply Qmult_le_0_compat; lra).
    assert (H2 : 0 <= (inject_Z (2 ^ 53) - 1 - inject_Z (Z.abs m)) * pow2 971)
      by (apply Qmult_le_0_compat; lra).
    rewrite E. lra.
  - assert (Hp : pow2 971 <= pow2 e) by (apply pow2_le; lia).
    destruct (Z_le_gt_dec e 1024) as [Hle'|Hgt'].
    + assert (E : pow2 1024 == inject_Z (2 ^ (1024 - e)) * pow2 e).
      { rewrite <- pow2_inject by lia. rewrite <- pow2_add.
        replace (1024 - e + e)%Z with 1024%Z by lia. reflexivity. }
      rewrite E in Hlt |- *.
      assert (Hm' : inject_Z (Z.abs m) < inject_Z (2 ^ (1024 - e))).
      { apply Qnot_le_lt. intros Hge.
        apply (Qmult_le_compat_r _ _ (pow2 e)) in Hge; lra. }
      rewrite <- Zlt_Qlt in Hm'.
      assert (Hm'' : inject_Z (Z.abs m) <= inject_Z (2 ^ (1024 - e)) - 1).
      { change 1 with (inject_Z 1). unfold Qminus.
        rewrite <- inject_Z_opp, <- inject_Z_plus, <- Zle_Qle. lia. }
      assert (H1 : 0 <= (inject_Z (2 ^ (1024 - e)) - 1 - inject_Z (Z.abs m)) * pow2 e)
        by (apply Qmult_le_0_compat; lra).
      lra.
    + assert (Hp' : pow2 1024 <= pow2 e) by (apply pow2_le; lia).
      assert (Hm' : inject_Z (Z.abs m) < 1).
      { apply Qnot_le_lt. intros Hge.
        apply (Qmult_le_compat_r _ _ (pow2 e)) in Hge; lra. }
      change 1 with (inject_Z 1) in Hm'. rewrite <- Zlt_Qlt in Hm'.
      assert (Hz : Z.abs m = 0%Z) by lia. rewrite Hz.
      change (inject_Z 0) with 0.
      pose proof (pow2_lt 971 1024 ltac:(lia)). lra.
Qed.

End Binary64Facts.

(** ** Quotations *)

(** C6. For every finite number, converting to a quotation and back gives a
    finite number within [1e-9] of it. *)
Theorem toNumber_toQuotation_within_nano (x : number) :
  finite x →
  ∃ r, toNumber (Some (toQuotation x)) = Some r
       ∧ finite r
       ∧ (Qabs (r - x) <= 1 # 1000000000)%Q.
Proof.
  unfold number in x. intros [Fx Hx]. eexists. split; [reflexivity|].
  unfold toQuotation. cbn [units nano].
  set (s := if Qlt_le_dec x 0 then _ else _).
  assert (Hs : s = 1%Q ∨ s = (-1)%Q) by (unfold s; destruct (Qlt_le_dec x 0); auto).
  assert (Ex : (x == s * Qabs x)%Q).
  { unfold s. destruct (Qlt_le_dec x 0) as [Hneg|Hpos].
    - rewrite Qabs_neg by lra. ring.
    - rewrite Qabs_pos by lra. ring. }
  pose proof (Binary64Facts.roundtrip_core s (Qabs x) Hs
                (Binary64Facts.F_abs x Fx) (Qabs_nonneg x)) as H.
  unfold Binary64.Math_abs.
  set (R := Binary64.fadd _ _) in *.
  assert (E : (Qabs (R - x) == Qabs (R - s * Qabs x))%Q).
  { apply Qabs_wd. unfold Qminus. apply Qplus_comp; [reflexivity|].
    apply Qopp_comp. exact Ex. }
  rewrite <- E in H. split; [|exact H].
  split; [apply Binary64Facts.rnd_F|].
  pose proof (Binary64Facts.F_below_top x Fx Hx) as Htop.
  pose proof (Binary64Facts.pow2_le 0 971 ltac:(lia)) as H971.
  change (Binary64.pow2 0) with 1%Q in H971.
  revert H Htop. apply Qabs_case; intros ? H; revert H;
    apply Qabs_case; intros; apply Qabs_case; intros; lra.
Qed.

(** C7 at [0.9999999999]: the fraction rounds up to a full billion and is
    not carried into the units, so the quotation breaks the invariant. *)
Theorem toQuotation_misses_the_carry :
  finite just_below_one
  ∧ (units (toQuotation just_below_one) == 0)%Q
  ∧ (nano (toQuotation just_below_one) == 1000000000)%Q
  ∧ ¬ quotation_ok (toQuotation just_below_one).
Proof.
  assert (Hn : (nano (toQuotation just_below_one) == 1000000000)%Q)
    by (vm_compute; reflexivity).
  split; [|split; [|split]].
  - split; [apply Binary64Facts.rnd_F | vm_compute; reflexivity].
  - vm_compute. reflexivity.
  - exact Hn.
  - intros [_ Hlt]. rewrite Hn in Hlt. vm_compute in Hlt. discriminate.
Qed.

(** X16. What does hold of every quotation [toQuotation] builds: the signs agree
    and the magnitude of nano is at most one billion, the bound included. *)
Lemma toQuotation_signs_agree (x : number) :
  finite x →
  ((0 <= units (toQuotation x) ∧ 0 <= nano (toQuotation x))
   ∨ (units (toQuotation x) <= 0 ∧ nano (toQuotation x) <= 0))%Q
  ∧ (Qabs (nano (toQuotation x)) <= 1000000000)%Q.
Proof.
  unfold number in x. intros [Fx _].
  unfold toQuotation. cbn [units nano]. unfold Binary64.Math_abs.
  set (s := if Qlt_le_dec x 0 then _ else _).
  assert (Hs : s = 1%Q ∨ s = (-1)%Q) by (unfold s; destruct (Qlt_le_dec x 0); auto).
  destruct (Binary64Facts.quotation_parts s (Qabs x) Hs
              (Binary64Facts.F_abs x Fx) (Qabs_nonneg x))
    as (np & Hnp & EU & EN & _).
  assert (Hu : (0 <= Binary64.Math_floor (Qabs x))%Q).
  { unfold Binary64.Math_floor. change 0%Q with (inject_Z 0).
    rewrite <- Zle_Qle. rewrite <- (Qfloor_Z 0).
    apply Qfloor_resp_le, Qabs_nonneg. }
  assert (Hnq : (0 <= inject_Z np <= 1000000000)%Q).
  { change 0%Q with (inject_Z 0). change 1000000000%Q with (inject_Z 1000000000).
    rewrite <- !Zle_Qle. lia. }
  rewrite EU, EN. split.
  - destruct Hs as [-> | ->]; [left | right]; lra.
  - destruct Hs as [-> | ->]; apply Qabs_case; intros; lra.
Qed.

(** A term that denotes a representable value rounds to that value. *)
Lemma rnd_denotes (q y : Q) :
  (q == y)%Q → Binary64.F y → (Binary64.rnd q == y)%Q.
Proof.
  intros E Fy. rewrite <- E. apply Binary64Facts.rnd_exact.
  apply (Binary64Facts.F_compat y); [by symmetry | done].
Qed.

(** X17. An integer of magnitude up to [2 ^ 53] converts to itself as units
    and zero as nano, and comes back from the quotation unchanged. *)
Theorem toQuotation_integer (z : Z) :
  Z.abs z ≤ 2 ^ 53 →
  (units (toQuotation (inject_Z z)) == inject_Z z)%Q
  ∧ (nano (toQuotation (inject_Z z)) == 0)%Q
  ∧ ∃ r, toNumber (Some (toQuotation (inject_Z z))) = Some r
         ∧ (r == inject_Z z)%Q.
Proof.
  intros Hz.
  assert (Fz : Binary64.F (inject_Z z)) by (by apply Binary64Facts.F_int).
  assert (F0 : Binary64.F 0%Q) by (apply (Binary64Facts.F_int 0); lia).
  unfold toQuotation, toNumber. cbn [units nano].
  set (s := if Qlt_le_dec (inject_Z z) 0 then _ else _).
  unfold Binary64.Math_abs, Binary64.Math_floor.
  assert (Ea : Qabs (inject_Z z) = inject_Z (Z.abs z)) by done.
  rewrite Ea, Qfloor_Z.
  assert (Es : (s * inject_Z (Z.abs z) == inject_Z z)%Q).
  { unfold s. destruct (Qlt_le_dec (inject_Z z) 0) as [Hneg|Hpos].
    - change 0%Q with (inject_Z 0) in Hneg. rewrite <- Zlt_Qlt in Hneg.
      rewrite Z.abs_neq, inject_Z_opp by lia. ring.
    - change 0%Q with (inject_Z 0) in Hpos. rewrite <- Zle_Qle in Hpos.
      rewrite Z.abs_eq by lia. ring. }
  assert (Ed : (Binary64.fsub (inject_Z (Z.abs z)) (inject_Z (Z.abs z)) == 0)%Q).
  { apply rnd_denotes; [ring | exact F0]. }
  assert (Ep : (Binary64.fmul
                  (Binary64.fsub (inject_Z (Z.abs z)) (inject_Z (Z.abs z)))
                  1000000000 == 0)%Q).
  { apply rnd_denotes; [rewrite Ed; ring | exact F0]. }
  assert (En : Binary64.Math_round
                 (Binary64.fmul
                    (Binary64.fsub (inject_Z (Z.abs z)) (inject_Z (Z.abs z)))
                    1000000000) = inject_Z 0).
  { unfold Binary64.Math_round. by rewrite Ep. }
  rewrite En.
  assert (EU : (Binary64.fmul s (inject_Z (Z.abs z)) == inject_Z z)%Q)
    by (by apply rnd_denotes).
  assert (EN : (Binary64.fmul s (inject_Z 0) == 0)%Q).
  { apply rnd_denotes; [|exact F0]. change (inject_Z 0) with 0%Q. ring. }
  split; [exact EU|]. split; [exact EN|].
  eexists. split; [reflexivity|].
  assert (ED : (Binary64.fdiv (Binary64.fmul s (inject_Z 0)) 1000000000 == 0)%Q).
  { apply rnd_denotes; [|exact F0]. rewrite EN. reflexivity. }
  apply rnd_denotes; [|exact Fz]. rewrite EU, ED. ring.
Qed.

(** The sum [toNumber] computes from integer parts of a wire quotation is
    within half a billionth of the decimal they denote. *)
Lemma wire_accuracy (u n : Z) :
  Z.abs u ≤ 4194302 →
  Z.abs n ≤ 999999999 →
  (Qabs (Binary64.fadd (inject_Z u) (Binary64.fdiv (inject_Z n) 1000000000)
         - (inject_Z u + inject_Z n / 1000000000)) <= 1 # 2000000000)%Q.
Proof.
  intros Hu Hn.
  unfold Binary64.fadd, Binary64.fdiv.
  assert (Huq : (- 4194302 <= inject_Z u <= 4194302)%Q).
  { change (- 4194302)%Q with (inject_Z (- 4194302)).
    change 4194302%Q with (inject_Z 4194302). rewrite <- !Zle_Qle. lia. }
  assert (Hnq : (- 999999999 <= inject_Z n <= 999999999)%Q).
  { change (- 999999999)%Q with (inject_Z (- 999999999)).
    change 999999999%Q with (inject_Z 999999999). rewrite <- !Zle_Qle. lia. }
  assert (Ediv : (inject_Z n / 1000000000 == inject_Z n * (1 # 1000000000))%Q)
    by (field; lra).
  assert (HD : (Qabs (Binary64.rnd (inject_Z n / 1000000000)
                      - inject_Z n / 1000000000)
                <= 1 # 4503599627370496)%Q).
  { apply (Binary64Facts.rnd_error 52); [unfold Binary64.emin; lia|].
    change (Binary64.pow2 (53 - 52)) with 2%Q. rewrite Ediv.
    apply Qabs_case; intros; lra. }
  set (D := Binary64.rnd (inject_Z n / 1000000000)) in *.
  rewrite Ediv in HD |- *. apply Qabs_Qle_condition in HD.
  assert (HR : (Qabs (Binary64.rnd (inject_Z u + D) - (inject_Z u + D))
                <= 1 # 2147483648)%Q).
  { apply (Binary64Facts.rnd_error 31); [unfold Binary64.emin; lia|].
    change (Binary64.pow2 (53 - 31)) with 4194304%Q.
    apply Qabs_case; intros; lra. }
  apply Qabs_Qle_condition in HR. apply Qabs_Qle_condition. lra.
Qed.

(** X18. A wire quotation with integer parts, fewer than [2 ^ 22 - 1] units
    and less than a billion nano in magnitude, converts to a number within
    half a billionth of the decimal it denotes. *)
Theorem toNumber_wire_accuracy (u n : Z) :
  Z.abs u ≤ 4194302 →
  Z.abs n ≤ 999999999 →
  ∃ r, toNumber (Some {| units := inject_Z u; nano := inject_Z n |}) = Some r
       ∧ (Qabs (r - (inject_Z u + inject_Z n / 1000000000)) <= 1 # 2000000000)%Q.
Proof.
  intros Hu Hn. eexists. split; [reflexivity|]. by apply wire_accuracy.
Qed.

(** X19. The book a widget receives has one level per order of the message,
    in the order of the message, on either side; an absent side gives no
    levels. A level has the quantity of its order as volume, no price when
    the order has none, and for a price with integer parts in the range of
    [wire_accuracy] a number within half a billionth of it. *)
Theorem book_view_levels (ob : Orderbook) :
  (∀ i b, default [] (ob_bids ob) !! i = Some b →
     bids (book_view ob) !! i = Some (book_level b))
  ∧ (∀ i b, default [] (ob_asks ob) !! i = Some b →
       asks (book_view ob) !! i = Some (book_level b))
  ∧ length (bids (book_view ob)) = length (default [] (ob_bids ob))
  ∧ length (asks (book_view ob)) = length (default [] (ob_asks ob))
  ∧ ∀ b, lv_volume (book_level b) = quantity b
         ∧ (price b = None → lv_price (book_level b) = None)
         ∧ ∀ u n, price b = Some {| units := inject_Z u; nano := inject_Z n |} →
                  Z.abs u ≤ 4194302 → Z.abs n ≤ 999999999 →
                  ∃ r, lv_price (book_level b) = Some r
                       ∧ (Qabs (r - (inject_Z u + inject_Z n / 1000000000))
                          <= 1 # 2000000000)%Q.
Proof.
  unfold book_view. cbn [bids asks].
  split; [|split; [|split; [|split]]].
  - intros i b H. destruct (ob_bids ob) as [l|]; simpl in *; [|done].
    by rewrite list_lookup_fmap, H.
  - intros i b H. destruct (ob_asks ob) as [l|]; simpl in *; [|done].
    by rewrite list_lookup_fmap, H.
  - destruct (ob_bids ob) as [l|]; simpl; [apply length_map | done].
  - destruct (ob_asks ob) as [l|]; simpl; [apply length_map | done].
  - intros b. split; [done|]. split.
    + unfold book_level. cbn [lv_price]. by intros ->.
    + intros u n Hp Hu Hn. unfold book_level. cbn [lv_price]. rewrite Hp.
      eexists. split; [reflexivity|]. by apply wire_accuracy.
Qed.


(** The billionths [toQuotation] computes from a magnitude are an integer
    between 0 and one billion. *)
Lemma nano_of_magnitude (a : Q) :
  Binary64.F a → (0 <= a)%Q →
  0 ≤ Qfloor (Binary64.fmul (Binary64.fsub a (Binary64.Math_floor a)) 1000000000
              + (1 # 2)) ≤ 1000000000.
Proof.
  intros Fa Ha0. unfold Binary64.fsub, Binary64.fmul, Binary64.Math_floor.
  destruct (Binary64Facts.floor_frac_F a Fa Ha0) as [Fu Ff].
  destruct (Binary64Facts.rne_floor_le a) as [Hu1 Hu2].
  set (u := inject_Z (Qfloor a)) in *.
  pose proof (Binary64Facts.rnd_exact _ Ff) as Ed1.
  set (d1 := Binary64.rnd (a - u)) in *.
  assert (Hp : (Qabs (Binary64.rnd (d1 * 1000000000) - d1 * 1000000000)
                <= 1 # 8388608)%Q).
  { apply (Binary64Facts.rnd_error 23); [unfold Binary64.emin; lia|].
    change (Binary64.pow2 (53 - 23)) with (1073741824 # 1).
    apply Qabs_case; intros; lra. }
  set (p := Binary64.rnd (d1 * 1000000000)) in *.
  apply Qabs_Qle_condition in Hp.
  destruct (Binary64Facts.rne_floor_le (p + (1 # 2))) as [Hn1 Hn2].
  set (np := Qfloor (p + (1 # 2))) in *.
  assert (H1 : (inject_Z (-1) < inject_Z np)%Q)
    by (change (inject_Z (-1)) with (-1)%Q; lra).
  assert (H2 : (inject_Z np < inject_Z 1000000001)%Q)
    by (change (inject_Z 1000000001) with 1000000001%Q; lra).
  rewrite <- Zlt_Qlt in H1, H2. lia.
Qed.

(** A sign times a representable value is computed exactly. *)
Lemma fmul_sign (s y : Q) :
  s = 1%Q ∨ s = (-1)%Q → Binary64.F y → (Binary64.fmul s y == s * y)%Q.
Proof.
  intros Hs Fy. apply Binary64Facts.rnd_exact. destruct Hs as [-> | ->].
  - apply (Binary64Facts.F_compat y); [ring | exact Fy].
  - apply (Binary64Facts.F_compat (- y)); [ring | by apply Binary64Facts.F_opp].
Qed.

(** X20. [toQuotation] is odd: the quotation of the negated number has both
    parts negated. *)
Theorem toQuotation_odd (x : number) :
  finite x →
  (units (toQuotation (- x)) == - units (toQuotation x))%Q
  ∧ (nano (toQuotation (- x)) == - nano (toQuotation x))%Q.
Proof.
  unfold number in x. intros [Fx _].
  assert (Eabs : Qabs (- x) = Qabs x).
  { destruct x as [n d]. unfold Qabs, Qopp. simpl. f_equal. lia. }
  unfold toQuotation. cbn [units nano]. unfold Binary64.Math_abs.
  rewrite Eabs.
  pose proof (Binary64Facts.F_abs x Fx) as Fa.
  pose proof (Qabs_nonneg x) as Ha0.
  destruct (Binary64Facts.floor_frac_F (Qabs x) Fa Ha0) as [Fu _].
  pose proof (nano_of_magnitude (Qabs x) Fa Ha0) as Hn.
  unfold Binary64.Math_round.
  change (inject_Z (Qfloor (Qabs x))) with (Binary64.Math_floor (Qabs x)) in Fu.
  set (U := Binary64.Math_floor (Qabs x)) in *.
  set (k := Qfloor (_ + (1 # 2))) in *.
  assert (Fk : Binary64.F (inject_Z k)) by (apply Binary64Facts.F_int; lia).
  set (s := if Qlt_le_dec x 0 then _ else _).
  set (s' := if Qlt_le_dec (- x) 0 then _ else _).
  assert (Hs : s = 1%Q ∨ s = (-1)%Q) by (unfold s; destruct (Qlt_le_dec x 0); auto).
  assert (Hs' : s' = 1%Q ∨ s' = (-1)%Q)
    by (unfold s'; destruct (Qlt_le_dec (- x) 0); auto).
  rewrite !fmul_sign by done.
  assert (Hz : (x == 0)%Q → (U == 0)%Q ∧ (inject_Z k == 0)%Q).
  { intros E0. assert (Ea : (Qabs x == 0)%Q) by (rewrite E0; reflexivity).
    assert (EU : U = inject_Z 0).
    { unfold U, Binary64.Math_floor. rewrite Ea. reflexivity. }
    split; [by rewrite EU|].
    unfold k. fold U. rewrite EU.
    assert (E1 : (Binary64.fsub (Qabs x) (inject_Z 0) == 0)%Q).
    { apply rnd_denotes; [rewrite Ea; reflexivity|].
      apply (Binary64Facts.F_int 0). lia. }
    assert (E2 : (Binary64.fmul (Binary64.fsub (Qabs x) (inject_Z 0)) 1000000000
                  == 0)%Q).
    { apply rnd_denotes; [rewrite E1; ring|]. apply (Binary64Facts.F_int 0). lia. }
    rewrite E2. reflexivity. }
  destruct (Qlt_le_dec x 0) as [Hneg|Hpos]; destruct (Qlt_le_dec (- x) 0) as [Hneg'|Hpos'];
    unfold s, s'.
  - lra.
  - split; ring.
  - split; ring.
  - assert (E0 : (x == 0)%Q) by lra. destruct (Hz E0) as [-> ->]. split; ring.
Qed.

(** ** Symbols and service clients *)

Lemma before_tilde_clean s : has_tilde (before_tilde s) = false.
Proof.
  induction s as [|c r IH]; simpl; [done|].
  destruct (Ascii.eqb c tilde) eqn:E; simpl; [done|]. by rewrite E.
Qed.

Lemma before_tilde_split s :
  has_tilde s = true → ∃ rest, s = before_tilde s +:+ "~" +:+ rest.
Proof.
  induction s as [|c r IH]; simpl; [done|].
  destruct (Ascii.eqb c tilde) eqn:E; simpl.
  - intros _. apply Ascii.eqb_eq in E as ->. by exists r.
  - intros H. destruct (IH H) as [rest Hr]. exists rest. rewrite Hr at 1. reflexivity.
Qed.

(** X21. [getSymbol] returns the symbol up to its first tilde: the result has
    no tilde, it is the symbol itself when that has none, otherwise the
    symbol is the result, a tilde and a rest. Applied to its own result it
    changes nothing; without an instrument there is no result. *)
Theorem getSymbol_cuts_at_first_tilde (i : Instrument) :
  ∃ r,
    getSymbol (Some i) = Some r
    ∧ has_tilde r = false
    ∧ (if has_tilde (symbol i) then ∃ rest, symbol i = r +:+ "~" +:+ rest
       else r = symbol i)
    ∧ getSymbol (Some {| _id := _id i; symbol := r; tinkoffFigi := tinkoffFigi i |})
      = Some r
    ∧ getSymbol None = None.
Proof.
  eexists. split; [reflexivity|].
  assert (Hclean : has_tilde
            (if has_tilde (symbol i) then before_tilde (symbol i) else symbol i)
            = false).
  { destruct (has_tilde (symbol i)) eqn:E; [apply before_tilde_clean | done]. }
  split; [exact Hclean|]. split; [|split; [|done]].
  - destruct (has_tilde (symbol i)) eqn:E; [by apply before_tilde_split | done].
  - simpl. by rewrite Hclean.
Qed.

Lemma getOrCreateClient_keeps service other c client :
  JsMap.get service (clients c) = Some client →
  JsMap.get service (clients (getOrCreateClient other c).1) = Some client.
Proof.
  intros Hget. unfold getOrCreateClient. simpl.
  destruct (JsMap.get other (clients c)) eqn:E; [done|]. simpl.
  rewrite JsMap_get_set_ne; [done|]. intros Heq. subst. congruence.
Qed.

(** X22. [getOrCreateClient] always returns a client, and keeps returning the
    same one for the same service, however many other requests come in
    between; a request for a cached service creates nothing. *)
Theorem getOrCreateClient_caches (service : string) (others : list string)
    (c : Clients) :
  ∃ client,
    (getOrCreateClient service c).2 = Some client
    ∧ getOrCreateClient service
        (request_clients others (getOrCreateClient service c).1)
      = (request_clients others (getOrCreateClient service c).1, Some client)
    ∧ (is_Some (JsMap.get service (clients c)) →
         (getOrCreateClient service c).1 = c).
Proof.
  assert (H1 : ∃ client,
            JsMap.get service (clients (getOrCreateClient service c).1) = Some client).
  { unfold getOrCreateClient. simpl.
    destruct (JsMap.get service (clients c)) eqn:E; simpl; [by eexists|].
    rewrite JsMap_get_set_eq. by eexists. }
  destruct H1 as [client Hc]. exists client. split; [exact Hc|]. split.
  - revert Hc. generalize (getOrCreateClient service c).1 as c1.
    induction others as [|o others IH]; intros c1 Hc; simpl.
    + unfold getOrCreateClient. rewrite Hc. simpl. by rewrite Hc.
    + apply IH. by apply getOrCreateClient_keeps.
  - intros [x Hx]. unfold getOrCreateClient. by rewrite Hx.
Qed.

(** * Worked examples

    One widget bound to one instrument, subscribed to its book; the
    properties above at these values. *)

(** Stand-ins for the two runtime conversions to text: the examples do not
    depend on what they print. *)
Definition render_number (q : number) : string :=
  pretty (Qnum q) +:+ "/" +:+ pretty (Zpos (Qden q)).

Definition render_time (ms : Z) : string := pretty ms.

(** Stand-ins for the two enumeration members. *)
Definition buy : Z := 1.
Definition sell : Z := 2.

Definition sber : Instrument :=
  {| _id := "sber-id"; symbol := "SBER"; tinkoffFigi := "BBG004730N88" |}.

Definition sber_book : Orderbook :=
  {| ob_figi := "BBG004730N88";
     ob_bids := Some [ {| price := Some {| units := 250%Q; nano := 500000000%Q |};
                          quantity := 10 |} ];
     ob_asks := Some [ {| price := Some {| units := 251%Q; nano := 0%Q |};
                          quantity := 7 |} ] |}.

Definition book_widgets : gmap loc (gmap string Value) :=
  {[ 0%nat := {[ "instrument" := VInstrument sber ]} ]}.

Definition book_records : list (loc * list SubField) :=
  [ (0%nat, [ {| field := "orderbook"; datum := ORDERBOOK |} ]) ].

(** The widget subscribes, the first ref is added, the debounce window
    passes and the stream is opened. *)
Definition streaming : State :=
  run render_number render_time buy sell
    [ Framework book_records [] book_widgets;
      AddFirstRefBegin sber OrderbookRefs;
      AddFirstRefResume sber OrderbookRefs (inr sber_book);
      Tick 100;
      DebounceFire ]
    (initial None).

Definition trade_at (ms : Z) (d : Z) : Trade :=
  {| tr_figi := "BBG004730N88"; tr_direction := d;
     tr_price := Some {| units := 250%Q; nano := 0%Q |};
     tr_quantity := 1; tr_time := ms |}.

Example streaming_is_live :
  session_live streaming = true
  ∧ trace streaming
    = [ EvGetOrderBook "BBG004730N88" 50; EvCache "sber-id";
        EvWrite 0%nat "orderbook"; EvResubscribe false;
        EvOpenStream 0%nat
          {| subscribeOrderBookRequest :=
               Some {| sob_subscriptionAction := SUBSCRIPTION_ACTION_SUBSCRIBE;
                       sob_instruments :=
                         [ {| obi_instrumentId := "BBG004730N88"; obi_depth := 50 |} ] |};
             subscribeTradesRequest := None |} ]
  ∧ is_Some (prop_of streaming 0%nat "orderbook").
Proof. vm_compute. split; [done|]. split; [done|]. by eexists. Qed.


(** C2 at the removal of the only ref of [streaming]. *)
Lemma no_refs_no_session_witness :
  refs_empty (removeLastRef sber OrderbookRefs streaming).1 = true
  ∧ session_live (removeLastRef sber OrderbookRefs streaming).1 = false
  ∧ trace (removeLastRef sber OrderbookRefs streaming).1
    = trace streaming ++ [EvAbort 0%nat].
Proof.
  destruct (no_refs_no_session render_number render_time buy sell None [] streaming sber
              OrderbookRefs false
              {| snapshot_of := fun _ => inl AbortError; answered_at := fun _ => 0%nat;
                 items := []; ending := Done |})
    as (_ & H & _).
  split; [reflexivity|]. exact (H eq_refl).
Defined.

(** C3 at a removal nothing was added for. *)
Lemma removeLastRef_without_ref_is_silent_witness :
  JsMap.get (_id sber) (refs_of AllTradesRefs streaming) = None
  ∧ (removeLastRef sber AllTradesRefs streaming).2 = Normal
  ∧ refs_orderbook (removeLastRef sber AllTradesRefs streaming).1
    = refs_orderbook streaming.
Proof.
  assert (H : JsMap.get (_id sber) (refs_of AllTradesRefs streaming) = None)
    by (vm_compute; reflexivity).
  split; [exact H|].
  rewrite (removeLastRef_without_ref_is_silent sber AllTradesRefs streaming H).
  split; [reflexivity|]. vm_compute. reflexivity.
Defined.

(** C3 as stated fails: the removal of a ref that does not exist ends
    normally, with no error. *)
Lemma removeLastRef_raises_nothing :
  JsMap.get (_id sber) (refs_of OrderbookRefs (initial None)) = None
  ∧ ¬ ∃ e, (removeLastRef sber OrderbookRefs (initial None)).2 = Thrown e.
Proof. split; [reflexivity|]. intros [e He]. discriminate He. Qed.

(** C5 at [streaming]. *)
Lemma request_lists_current_refs_witness :
  subscribeOrderBookRequest (buildRequest streaming)
  = Some {| sob_subscriptionAction := SUBSCRIPTION_ACTION_SUBSCRIBE;
            sob_instruments :=
              [ {| obi_instrumentId := "BBG004730N88"; obi_depth := 50 |} ] |}
  ∧ subscribeTradesRequest (buildRequest streaming) = None.
Proof.
  destruct (request_lists_current_refs true streaming eq_refl) as (H1 & H2 & _).
  split; [exact H1 | exact H2].
Defined.

(** C6 at [-3.25]. *)
Lemma toNumber_toQuotation_within_nano_witness :
  ∃ r, toNumber (Some (toQuotation (-13 # 4)%Q)) = Some r
       ∧ finite r
       ∧ (Qabs (r - (-13 # 4)) <= 1 # 1000000000)%Q.
Proof.
  apply toNumber_toQuotation_within_nano. split.
  - exists (-13), (-2). split; [reflexivity|]. split; [reflexivity|].
    unfold Binary64.emin. lia.
  - reflexivity.
Defined.

(** C8 at a depth of two on three trades. *)
Lemma allTrades_newest_first_witness :
  allTrades render_number render_time buy sell (Some sber) 2
    (inr [trade_at 1000 buy; trade_at 2000 sell;
          trade_at 3000 buy])
  = inr (map (trade_print render_number render_time buy sell sber)
           [trade_at 3000 buy; trade_at 2000 sell]).
Proof.
  destruct (allTrades_newest_first render_number render_time buy sell sber 2
              [trade_at 1000 buy; trade_at 2000 sell;
               trade_at 3000 buy] (inr []) ltac:(lia)) as (H & _).
  exact H.
Defined.

(** What C8 states: exactly [depth] records, the newest trades first. *)
Definition returns_exactly_depth_newest (ins : Instrument) (depth : Z)
    (trades : list Trade) : Prop :=
  ∃ l, allTrades render_number render_time buy sell (Some ins) depth (inr trades) = inr l
       ∧ length l = Z.to_nat depth.

(** C8 as stated fails: with two trades answered, a depth of three returns
    two records, and a depth of zero returns both instead of none. *)
Lemma allTrades_not_exactly_depth :
  ¬ returns_exactly_depth_newest sber 3
      [trade_at 1000 buy; trade_at 2000 sell]
  ∧ ¬ returns_exactly_depth_newest sber 0
      [trade_at 1000 buy; trade_at 2000 sell].
Proof.
  split; intros (l & E & Hlen); vm_compute in E; injection E as <-; discriminate Hlen.
Qed.




Definition gazp : Instrument :=
  {| _id := "gazp-id"; symbol := "GAZP"; tinkoffFigi := "BBG004730RP0" |}.

(** Two widgets with a book record each, bound to different instruments,
    and a ref for both instruments. *)
Definition two_books : State :=
  run render_number render_time buy sell
    [ Framework
        [ (0%nat, [ {| field := "orderbook"; datum := ORDERBOOK |} ]);
          (1%nat, [ {| field := "orderbook"; datum := ORDERBOOK |} ]) ]
        []
        {[ 0%nat := {[ "instrument" := VInstrument sber ]};
           1%nat := {[ "instrument" := VInstrument gazp ]} ]};
      AddFirstRefBegin sber OrderbookRefs;
      AddFirstRefBegin gazp OrderbookRefs ]
    (initial None).

(** C9 at a book of the first instrument: the widget of the second keeps its
    properties, and the first has the book. *)
Lemma book_message_updates_only_bound_entries_witness :
  heap (onOrderbookMessage (Some sber_book) (Some sber) two_books) !! 1%nat
  = heap two_books !! 1%nat
  ∧ prop_of (onOrderbookMessage (Some sber_book) (Some sber) two_books)
      0%nat "orderbook"
    = Some (VBook (book_view sber_book)).
Proof.
  destruct (book_message_updates_only_bound_entries render_number render_time buy sell
              sber_book sber two_books)
    as (H & _ & _).
  split; [apply H; vm_compute; reflexivity | vm_compute; reflexivity].
Defined.


(** The stream of [streaming] fails, the timer comes due and fires, the
    debounce window passes. *)
Definition reconnected : State :=
  run render_number render_time buy sell
    [ SessionEnd (Threw (OtherError "network"));
      Tick 1000;
      TimerFire 0;
      Tick 100;
      DebounceFire ]
    streaming.

Example reconnect_history :
  trace reconnected
  = trace streaming
    ++ [ EvConsoleError; EvSetTimeout 1000; EvResubscribe true; EvAbort 0%nat;
         EvOpenStream 1%nat (buildRequest streaming);
         EvGetOrderBook "BBG004730N88" 50 ]
  ∧ session_live reconnected = true.
Proof. vm_compute. done. Qed.

(** One millisecond early the timer does nothing. *)
Example timer_not_yet_due :
  run render_number render_time buy sell
    [ SessionEnd (Threw (OtherError "network")); Tick 999; TimerFire 0 ] streaming
  = run render_number render_time buy sell
      [ SessionEnd (Threw (OtherError "network")); Tick 999 ] streaming.
Proof. vm_compute. done. Qed.

(** The reconnect flag travels with the pending request: a request without
    the flag that arrives inside the window of the timer's request replaces
    it, and the stream is then reopened without the snapshot calls. *)
Example later_request_replaces_the_flag :
  trace
    (run render_number render_time buy sell
       [ SessionEnd (Threw (OtherError "network"));
         Tick 1000;
         TimerFire 0;
         Tick 50;
         AddFirstRefBegin gazp AllTradesRefs;
         AddFirstRefResume gazp AllTradesRefs (inr sber_book);
         Tick 100;
         DebounceFire ]
       streaming)
  = trace streaming
    ++ [ EvConsoleError; EvSetTimeout 1000; EvResubscribe true;
         EvResubscribe false; EvAbort 0%nat;
         EvOpenStream 1%nat
           {| subscribeOrderBookRequest :=
                Some {| sob_subscriptionAction := SUBSCRIPTION_ACTION_SUBSCRIBE;
                        sob_instruments :=
                          [ {| obi_instrumentId := "BBG004730N88"; obi_depth := 50 |} ] |};
              subscribeTradesRequest :=
                Some {| st_subscriptionAction := SUBSCRIPTION_ACTION_SUBSCRIBE;
                        st_instruments :=
                          [ {| ti_instrumentId := "BBG004730RP0" |} ] |} |} ].
Proof. vm_compute. done. Qed.

(** Two snapshot calls of a reconnect in [two_books] that are both
    rejected, the first instrument's by a cancellation: which of the two is
    handled depends on which arrives first. *)
Definition racing (t_first t_second : nat) : Session :=
  {| snapshot_of :=
       fun figi => if decide (figi = "BBG004730N88") then inl AbortError
                   else inl (OtherError "unavailable");
     answered_at :=
       fun figi => if decide (figi = "BBG004730N88") then t_first else t_second;
     items := [];
     ending := Done |}.

Example first_rejection_in_time_decides :
  timers (priv_resubscribeToMarketData render_number render_time buy sell true
            (racing 2 1) two_books) = [1000]
  ∧ timers (priv_resubscribeToMarketData render_number render_time buy sell true
              (racing 1 2) two_books) = []
  ∧ timers (priv_resubscribeToMarketData render_number render_time buy sell true
              (racing 1 1) two_books) = [].
Proof. vm_compute. done. Qed.

(** The second call is rejected first and the book of the first arrives
    later: the book is still routed, after the [catch] block, and the item
    of the stream is never taken. *)
Definition late_book : Session :=
  {| snapshot_of :=
       fun figi => if decide (figi = "BBG004730N88") then inr sber_book
                   else inl (OtherError "unavailable");
     answered_at :=
       fun figi => if decide (figi = "BBG004730N88") then 2%nat else 1%nat;
     items := [ {| sd_orderbook := Some sber_book; sd_trade := None |} ];
     ending := Done |}.

Example late_answer_is_still_routed :
  trace (priv_resubscribeToMarketData render_number render_time buy sell true
           late_book two_books)
  = trace two_books
    ++ [ EvOpenStream 0%nat (buildRequest two_books);
         EvGetOrderBook "BBG004730N88" 50; EvGetOrderBook "BBG004730RP0" 50;
         EvConsoleError; EvSetTimeout 1000;
         EvCache "sber-id"; EvWrite 0%nat "orderbook" ].
Proof. vm_compute. done. Qed.



(** ** Further properties at the sample values *)

(** X5 in [streaming]: a second instrument is added to the trade refs and
    removed again. *)
Lemma addFirstRef_then_removeLastRef_witness :
  figis (removeLastRef gazp AllTradesRefs
           (addFirstRef gazp AllTradesRefs (inr sber_book) streaming).1).1
    !! tinkoffFigi gazp = Some gazp
  ∧ refs_allTrades (removeLastRef gazp AllTradesRefs
                      (addFirstRef gazp AllTradesRefs (inr sber_book) streaming).1).1
    = refs_allTrades streaming.
Proof.
  assert (H : JsMap.get (_id gazp) (refs_of AllTradesRefs streaming) = None)
    by (vm_compute; reflexivity).
  destruct (addFirstRef_then_removeLastRef gazp AllTradesRefs (inr sber_book)
              streaming H) as (Hf & Hown & _).
  split; [exact Hf|]. apply Hown. discriminate.
Defined.

(** X6 in [two_books]: removing the first instrument leaves the second, and
    the history does not grow. *)
Lemma removeLastRef_keeps_the_stream_witness :
  trace (removeLastRef sber OrderbookRefs two_books).1 = trace two_books
  ∧ JsMap.get (_id sber)
      (refs_orderbook (removeLastRef sber OrderbookRefs two_books).1) = None.
Proof.
  assert (H : refs_empty (removeLastRef sber OrderbookRefs two_books).1 = false)
    by (vm_compute; reflexivity).
  destruct (removeLastRef_keeps_the_stream sber OrderbookRefs two_books H)
    as (Ht & _ & _ & _ & _ & _ & _ & Hgone).
  split; [exact Ht|]. apply (Hgone ltac:(discriminate)).
Defined.

(** X8 in [streaming]: the index entry of the instrument outlives the
    removal of its ref. *)
Lemma index_never_forgets_witness :
  ∃ i', figis (run render_number render_time buy sell
                 [ RemoveLastRef sber OrderbookRefs; Tick 5 ] streaming)
          !! "BBG004730N88" = Some i'
        ∧ i' = sber.
Proof.
  assert (H : figis streaming !! "BBG004730N88" = Some sber)
    by (vm_compute; reflexivity).
  destruct (index_never_forgets render_number render_time buy sell
              [ RemoveLastRef sber OrderbookRefs; Tick 5 ] streaming
              "BBG004730N88" sber H) as (i' & Hi & Hsame).
  exists i'. split; [exact Hi|]. apply Hsame.
  intros ins refs Hin.
  apply elem_of_cons in Hin as [Hin|Hin]; [discriminate|].
  apply elem_of_cons in Hin as [Hin|Hin]; [discriminate|].
  by apply elem_of_nil in Hin.
Defined.

(** X11 in [streaming]: the widget gets the cached book again, and the refs
    stay. *)
Lemma instrumentChanged_replays_the_cache_witness :
  refs_orderbook (instrumentChanged (Some sber) streaming)
  = refs_orderbook streaming
  ∧ pending (instrumentChanged (Some sber) streaming) = pending streaming.
Proof.
  destruct (instrumentChanged_replays_the_cache sber streaming ltac:(discriminate))
    as (_ & Hr & _ & Hp & _).
  split; [exact Hr | exact Hp].
Defined.


(** X14 in [streaming]: the book of the first snapshot once more. *)
Lemma book_message_twice_witness :
  refs_orderbook
    (onOrderbookMessage (Some sber_book) (Some sber)
       (onOrderbookMessage (Some sber_book) (Some sber) streaming))
  = refs_orderbook (onOrderbookMessage (Some sber_book) (Some sber) streaming).
Proof.
  assert (H : NoDup (subs_orderbook streaming).*1).
  { assert (E : (subs_orderbook streaming).*1 = [0%nat]) by (vm_compute; reflexivity).
    rewrite E. apply NoDup_singleton. }
  exact (proj1 (book_message_twice sber_book sber streaming H)).
Defined.

(** X15 in [streaming]: a book item that arrives after the ref was removed. *)
Lemma late_items_after_removal_witness :
  stream_item render_number render_time buy sell
    {| sd_orderbook := Some sber_book; sd_trade := None |}
    (removeLastRef sber OrderbookRefs streaming).1
  = emit EvNext (removeLastRef sber OrderbookRefs streaming).1.
Proof.
  assert (H : figis streaming !! tinkoffFigi sber = Some sber)
    by (vm_compute; reflexivity).
  destruct (late_items_after_removal render_number render_time buy sell sber
              {| sd_orderbook := Some sber_book; sd_trade := None |} streaming H)
    as (Hbook & _).
  by apply (Hbook sber_book).
Defined.

(** X16 at [-3.25]. *)
Lemma toQuotation_signs_agree_witness :
  ((0 <= units (toQuotation (-13 # 4)%Q) ∧ 0 <= nano (toQuotation (-13 # 4)%Q))
   ∨ (units (toQuotation (-13 # 4)%Q) <= 0 ∧ nano (toQuotation (-13 # 4)%Q) <= 0))%Q
  ∧ (Qabs (nano (toQuotation (-13 # 4)%Q)) <= 1000000000)%Q.
Proof.
  apply toQuotation_signs_agree. split.
  - exists (-13), (-2). split; [reflexivity|]. split; [reflexivity|].
    unfold Binary64.emin. lia.
  - reflexivity.
Defined.

(** X17 at [-250]. *)
Lemma toQuotation_integer_witness :
  (units (toQuotation (inject_Z (-250))) == inject_Z (-250))%Q
  ∧ (nano (toQuotation (inject_Z (-250))) == 0)%Q
  ∧ ∃ r, toNumber (Some (toQuotation (inject_Z (-250)))) = Some r
         ∧ (r == inject_Z (-250))%Q.
Proof. apply toQuotation_integer. vm_compute. discriminate. Defined.

(** X18 at the best bid of [sber_book], [250.5]. *)
Lemma toNumber_wire_accuracy_witness :
  ∃ r, toNumber (Some {| units := inject_Z 250; nano := inject_Z 500000000 |})
       = Some r
       ∧ (Qabs (r - (inject_Z 250 + inject_Z 500000000 / 1000000000))
          <= 1 # 2000000000)%Q.
Proof. apply toNumber_wire_accuracy; vm_compute; discriminate. Defined.

(** X20 at [3.25]. *)
Lemma toQuotation_odd_witness :
  (units (toQuotation (- (13 # 4))%Q) == - units (toQuotation (13 # 4)%Q))%Q
  ∧ (nano (toQuotation (- (13 # 4))%Q) == - nano (toQuotation (13 # 4)%Q))%Q.
Proof.
  apply toQuotation_odd. split.
  - exists 13, (-2). split; [reflexivity|]. split; [reflexivity|].
    unfold Binary64.emin. lia.
  - reflexivity.
Defined.
